(** * Jobmap: ingestion, upsert, geocoding and bounding-box search

    A shallow embedding of the core of the Jobmap API server
    (apps/api/src): the salary parsers of the source adapters
    (ingest/*.ts), the geocode resolver (lib/geocode.ts), the upsert
    engine (lib/jobs.ts) and the search route with its read-through
    cache (routes/jobs.ts, lib/redis.ts).

    Conventions of the embedding
    - JavaScript strings are [string]s of 8-bit characters; [toLowerCase]
      and [trim] are the ASCII parts of the ECMAScript operations.
    - [undefined] and [null] of an optional field are [None].
    - Coordinates are IEEE-754 doubles ([float]); [!==] on numbers is the
      negation of [PrimFloat.eqb].
    - Integers produced by [parseInt] are kept exact in [Z].
    - The database, the Redis cache and the Mapbox service are explicit
      components of a state that every operation threads through. *)

From Stdlib Require Import ZArith Lia Bool List Ascii String DecimalString PrimFloat.
From stdpp Require Import base option list strings gmap.
Import ListNotations.

Local Open Scope string_scope.
Local Open Scope Z_scope.

(** ** JavaScript strings *)

Module JS.

Definition code (c : ascii) : nat := nat_of_ascii c.

(** [\d] of a regular expression without the unicode flag: 0-9. *)
Definition isDigit (c : ascii) : bool :=
  (48 <=? code c)%nat && (code c <=? 57)%nat.

(** WhiteSpace and LineTerminator code points below 128, the ones
    [String.prototype.trim] strips: TAB, LF, VT, FF, CR, SP. *)
Definition isWhiteSpace (c : ascii) : bool :=
  match code c with
  | 9%nat | 10%nat | 11%nat | 12%nat | 13%nat | 32%nat => true
  | _ => false
  end.

Definition lowerChar (c : ascii) : ascii :=
  if (65 <=? code c)%nat && (code c <=? 90)%nat
  then ascii_of_nat (code c + 32) else c.

Fixpoint toLowerCase (s : string) : string :=
  match s with
  | EmptyString => EmptyString
  | String c s' => String (lowerChar c) (toLowerCase s')
  end.

Fixpoint trimStart (s : string) : string :=
  match s with
  | EmptyString => EmptyString
  | String c s' => if isWhiteSpace c then trimStart s' else s
  end.

Fixpoint trimEnd (s : string) : string :=
  match s with
  | EmptyString => EmptyString
  | String c s' =>
      match trimEnd s' with
      | EmptyString => if isWhiteSpace c then EmptyString else String c EmptyString
      | t => String c t
      end
  end.

Definition trim (s : string) : string := trimEnd (trimStart s).

(** [Array.prototype.join]. *)
Fixpoint join (sep : string) (l : list string) : string :=
  match l with
  | [] => EmptyString
  | [x] => x
  | x :: rest => x ++ sep ++ join sep rest
  end.

(** Truthiness of a [string | null | undefined]: present and not empty. *)
Definition truthy (o : option string) : bool :=
  match o with
  | Some (String _ _) => true
  | _ => false
  end.

(** [a || b] on such a value. *)
Definition orElse (o : option string) (d : string) : string :=
  match o with
  | Some (String c s) => String c s
  | _ => d
  end.

(** A JavaScript number as far as the salary parsers need it: an
    integer or NaN. *)
Inductive number : Type :=
| NaN
| Int (z : Z).

Definition isNaN (n : number) : bool :=
  match n with NaN => true | Int _ => false end.

(** Truthiness of a number: neither 0 nor NaN. *)
Definition numTruthy (n : number) : bool :=
  match n with NaN => false | Int z => negb (z =? 0) end.

Definition digitVal (c : ascii) : Z := Z.of_nat (code c - 48).

(** Value of the leading run of decimal digits, [None] when the string
    does not start with a digit. *)
Fixpoint leadingDigits (s : string) (acc : option Z) : option Z :=
  match s with
  | EmptyString => acc
  | String c s' =>
      if isDigit c
      then leadingDigits s' (Some (10 * default 0 acc + digitVal c))
      else acc
  end.

(** [parseInt(s)] on the strings the parsers pass: no sign, no white
    space, no radix prefix can occur, since every argument consists of
    digits only. *)
Definition parseInt (s : string) : number :=
  match leadingDigits s None with
  | Some z => Int z
  | None => NaN
  end.

Definition min2 (a b : number) : number :=
  match a, b with
  | Int x, Int y => Int (Z.min x y)
  | _, _ => NaN
  end.

Definition max2 (a b : number) : number :=
  match a, b with
  | Int x, Int y => Int (Z.max x y)
  | _, _ => NaN
  end.

(** [Math.min(n, ...ns)] and [Math.max(n, ...ns)] on at least one
    argument: NaN as soon as one argument is NaN. *)
Definition Math_min (n : number) (ns : list number) : number :=
  fold_left min2 ns n.

Definition Math_max (n : number) (ns : list number) : number :=
  fold_left max2 ns n.

Definition mul (a : number) (k : Z) : number :=
  match a with NaN => NaN | Int x => Int (x * k) end.

(** [a < k] is false on NaN. *)
Definition lt (a : number) (k : Z) : bool :=
  match a with NaN => false | Int x => x <? k end.

End JS.

(** ** Salary parsing (ingest/arizona-job-connection.ts, ingest/indeed.ts) *)

Module Salary.
Import JS.

Record Pay : Type := mkPay {
  payMin : option number;
  payMax : option number
}.

Definition absent : Pay := mkPay None None.

Definition inClass (c : ascii) : bool := isDigit c || Ascii.eqb c ","%char.

Definition snoc (s : string) (c : ascii) : string := s ++ String c EmptyString.

(** [s.match(/[\d,]+/g)]: the maximal runs of digits and commas, left to
    right. [cur] is the run being read, [None] between runs. *)
Fixpoint matchRuns (s : string) (cur : option string) : list string :=
  match s with
  | EmptyString => match cur with Some r => [r] | None => [] end
  | String c s' =>
      if inClass c
      then matchRuns s' (Some (snoc (default EmptyString cur) c))
      else match cur with
           | Some r => r :: matchRuns s' None
           | None => matchRuns s' None
           end
  end.

(** State of the matcher of [/\$?([\d,]+)/g]. *)
Inductive scan : Type :=
| Idle
| Dollar
| Run (acc : string).

(** [s.match(/\$?([\d,]+)/g)]: the same runs, each with the dollar sign
    that immediately precedes it, if there is one. *)
Fixpoint matchDollarRuns (s : string) (st : scan) : list string :=
  match s with
  | EmptyString => match st with Run r => [r] | _ => [] end
  | String c s' =>
      if inClass c then
        match st with
        | Idle => matchDollarRuns s' (Run (String c EmptyString))
        | Dollar => matchDollarRuns s' (Run (String "$"%char (String c EmptyString)))
        | Run r => matchDollarRuns s' (Run (snoc r c))
        end
      else
        let st' := if Ascii.eqb c "$"%char then Dollar else Idle in
        match st with
        | Run r => r :: matchDollarRuns s' st'
        | _ => matchDollarRuns s' st'
        end
  end.

(** [n.replace(/,/g, empty)] *)
Fixpoint dropCommas (s : string) : string :=
  match s with
  | EmptyString => EmptyString
  | String c s' =>
      if Ascii.eqb c ","%char then dropCommas s' else String c (dropCommas s')
  end.

(** [n.replace(/[$,]/g, empty)] *)
Fixpoint dropDollarCommas (s : string) : string :=
  match s with
  | EmptyString => EmptyString
  | String c s' =>
      if Ascii.eqb c "$"%char || Ascii.eqb c ","%char
      then dropDollarCommas s' else String c (dropDollarCommas s')
  end.

(** The numbers the Arizona adapter reads from a salary text. *)
Definition arizonaNumbers (salaryText : string) : list number :=
  map (fun n => parseInt (dropCommas n)) (matchRuns salaryText None).

(** arizona-job-connection.ts, [parseSalary]. *)
Definition parseSalaryArizona (salaryText : option string) : Pay :=
  match salaryText with
  | None | Some EmptyString => absent
  | Some text =>
      let numbers := arizonaNumbers text in
      match numbers with
      | [] => absent
      | n :: rest =>
          let payMin := match rest with [] => n | _ => Math_min n rest end in
          let payMax := match rest with [] => n | _ => Math_max n rest end in
          if numTruthy payMax && lt payMax 100
          then mkPay (if numTruthy payMin then Some (mul payMin 2080) else None)
                     (Some (mul payMax 2080))
          else mkPay (Some payMin) (Some payMax)
      end
  end.

(** The amounts the Indeed adapter keeps: NaN is filtered out. *)
Definition indeedAmounts (salaryStr : string) : list number :=
  List.filter (fun n => negb (isNaN n))
    (map (fun n => parseInt (dropDollarCommas n)) (matchDollarRuns salaryStr Idle)).

(** [parseSalary] of the Indeed adapter (also the ZipRecruiter and
    ScraperAPI adapters, verbatim). *)
Definition parseSalaryIndeed (salaryStr : option string) : Pay :=
  match salaryStr with
  | None | Some EmptyString => absent
  | Some text =>
      match indeedAmounts text with
      | [] => absent
      | [a] => mkPay (Some a) (Some a)
      | a :: rest => mkPay (Some (Math_min a rest)) (Some (Math_max a rest))
      end
  end.

(** The two matchers find the same runs: the dollar sign the second one
    keeps is removed again before the run is read as a number. *)
Definition agree (st : scan) (cur : option string) : Prop :=
  match st, cur with
  | Run r, Some r' => dropDollarCommas r = dropCommas r'
  | Idle, None | Dollar, None => True
  | _, _ => False
  end.

End Salary.

(** ** Geocode resolver (lib/geocode.ts) *)

Module Geocode.
Import JS.

(** Outcome of an operation that may throw. The message of a Mapbox
    error is kept without the status it quotes. *)
Inductive result (A : Type) : Type :=
| Ok (a : A)
| Throw (message : string).
Arguments Ok {A} a.
Arguments Throw {A} message.

Record GeocodeAddress : Type := mkAddress {
  street : option string;
  city : option string;
  state : option string;
  postalCode : option string;
  country : option string
}.

Record GeocodeResult : Type := mkCoord {
  lat : float;
  lon : float
}.

(** [.filter((p) => p)] on an array of optional strings. *)
Fixpoint filterTruthy (parts : list (option string)) : list string :=
  match parts with
  | [] => []
  | Some (String c s) :: rest => String c s :: filterTruthy rest
  | _ :: rest => filterTruthy rest
  end.

Definition normalizeAddressKey (address : GeocodeAddress) : string :=
  join ", "
    (map (fun p => trim (toLowerCase p))
       (filterTruthy [street address; city address; state address;
                      postalCode address; Some (orElse (country address) "US")])).

(** *** The Mapbox service *)

(** A Mapbox feature, with the fields the resolver reads. [center] is
    [(longitude, latitude)]. *)
Record ContextItem : Type := mkContext {
  ctx_id : option string;
  ctx_text : option string;
  ctx_short_code : option string
}.

Record Feature : Type := mkFeature {
  center : option (float * float);
  place_type : option (list string);
  text : option string;
  prop_address : option string;
  prop_name : option string;
  context : option (list ContextItem)
}.

(** The three requests the resolver issues. *)
Inductive request : Type :=
| PlaceLookup (query : string)
    (* /{query}.json?limit=1&types=place *)
| ForwardLookup (query : string) (countryCode : string) (proximity : option (float * float))
    (* /{query}.json?limit=1&types=address,poi&country=..[&proximity=lon,lat] *)
| ReverseLookup (lon lat : float).
    (* /{lon},{lat}.json?types=poi,address&limit=5 *)

(** What [fetch] followed by [response.json()] yields: a rejection, or
    a response with its [ok] flag and the [features] member of its body. *)
Inductive response : Type :=
| Rejected
| Http (ok : bool) (features : option (list Feature)).

(** The surroundings of one call: the process environment, the remote
    service, which may answer the n-th request of the run in any way,
    and whether the geocode_cache table can be read and written. *)
Record Env : Type := mkEnv {
  MAPBOX_TOKEN : option string;
  fetch : nat -> request -> response;
  cacheReadable : bool;
  cacheWritable : bool
}.

(** The state the resolver works on: the geocode_cache table and the
    requests sent to Mapbox so far. *)
Record State : Type := mkState {
  geocodeCache : gmap string GeocodeResult;
  sent : list request
}.

Definition send (env : Env) (log : list request) (req : request)
  : response * list request :=
  (fetch env (List.length log) req, (log ++ [req])%list).

(** The proximity bias of [geocodeWithMapbox]: the centre of the city,
    when the lookup succeeds; any failure leaves the bias out. *)
Definition cityBias (env : Env) (log : list request) (address : GeocodeAddress)
  : option (float * float) * list request :=
  if truthy (city address) && truthy (state address) then
    let cityQuery := default EmptyString (city address) ++ ", " ++ default EmptyString (state address) in
    match send env log (PlaceLookup cityQuery) with
    | (Http true (Some (f :: _)), log') => (center f, log')
    | (_, log') => (None, log')
    end
  else (None, log).

Definition geocodeWithMapbox (env : Env) (log : list request) (address : GeocodeAddress)
  : result GeocodeResult * list request :=
  if negb (truthy (MAPBOX_TOKEN env))
  then (Throw "MAPBOX_TOKEN must be set in environment", log)
  else
    let queryParts :=
      filterTruthy [street address; city address; state address;
                    postalCode address; country address] in
    let query := join ", " queryParts in
    match query with
    | EmptyString => (Throw "Address must have at least one component", log)
    | _ =>
        let (proximity, log1) := cityBias env log address in
        let req := ForwardLookup query (orElse (country address) "US") proximity in
        match send env log1 req with
        | (Rejected, log2) => (Throw "fetch failed", log2)
        | (Http false _, log2) => (Throw "Mapbox API error", log2)
        | (Http true None, log2)
        | (Http true (Some []), log2) => (Throw "No results found for address", log2)
        | (Http true (Some (feature :: _)), log2) =>
            match center feature with
            | Some (lon, lat) => (Ok (mkCoord lat lon), log2)
            | None => (Throw "feature.center is not iterable", log2)
            end
        end
    end.

(** [prisma.geocodeCache.findUnique]; a failing lookup is logged and
    treated as a miss. *)
Definition cacheLookup (env : Env) (st : State) (key : string) : option GeocodeResult :=
  if cacheReadable env then geocodeCache st !! key else None.

(** [prisma.geocodeCache.upsert]; a failing write is logged and dropped. *)
Definition cacheStore (env : Env) (cache : gmap string GeocodeResult)
    (key : string) (r : GeocodeResult) : gmap string GeocodeResult :=
  if cacheWritable env then <[key := r]> cache else cache.

Definition geocodeAddress (env : Env) (st : State) (address : GeocodeAddress)
  : result GeocodeResult * State :=
  let cacheKey := normalizeAddressKey address in
  match cacheLookup env st cacheKey with
  | Some cached => (Ok (mkCoord (lat cached) (lon cached)), st)
  | None =>
      match geocodeWithMapbox env (sent st) address with
      | (Throw e, log) => (Throw e, mkState (geocodeCache st) log)
      | (Ok r, log) => (Ok r, mkState (cacheStore env (geocodeCache st) cacheKey r) log)
      end
  end.

(** [s.split(",")]: the pieces between commas, at least one. *)
Fixpoint splitComma (s : string) (cur : string) : list string :=
  match s with
  | EmptyString => [cur]
  | String c s' =>
      if Ascii.eqb c ","%char then cur :: splitComma s' EmptyString
      else splitComma s' (cur ++ String c EmptyString)
  end.

Definition nonEmpty (s : string) : option string :=
  match s with EmptyString => None | _ => Some s end.

(** [geocodeAddressSafe]: a bare string is read as "City, State"; a
    failure becomes [null]. *)
Definition geocodeAddressSafe (env : Env) (st : State) (address : GeocodeAddress + string)
  : option GeocodeResult * State :=
  let addressObj :=
    match address with
    | inl a => a
    | inr s =>
        let parts := map trim (splitComma s EmptyString) in
        mkAddress None (nth_error parts 0 ≫= nonEmpty) (nth_error parts 1 ≫= nonEmpty)
                  None (Some "US")
    end in
  match geocodeAddress env st addressObj with
  | (Ok r, st') => (Some r, st')
  | (Throw _, st') => (None, st')
  end.

(** *** Reverse geocoding *)

(** [f.place_type?.[0]] *)
Definition featureType (f : Feature) : option string :=
  place_type f ≫= head.

Definition precisionOf (ty : option string) : nat :=
  match ty with
  | Some "poi" => 3
  | Some "address" => 2
  | Some "street" => 1
  | _ => 0
  end.

(** The selection loop: [feature] is the best candidate so far and
    [bestPrecision] the score to beat. *)
Fixpoint selectLoop (fs : list Feature) (feature : Feature) (bestPrecision : nat) : Feature :=
  match fs with
  | [] => feature
  | f :: rest =>
      let precision := precisionOf (featureType f) in
      if (bestPrecision <? precision)%nat
      then selectLoop rest f precision
      else selectLoop rest feature bestPrecision
  end.

Definition selectFeature (first : Feature) (rest : list Feature) : Feature :=
  selectLoop (first :: rest) first 0.

Definition isType (ty : option string) (name : string) : bool :=
  match ty with Some t => String.eqb t name | None => false end.

(** [`${x}`] of an optional string. *)
Definition interpolate (o : option string) : string := default "undefined" o.

Definition streetOf (feature : Feature) : option string :=
  let ty := featureType feature in
  if isType ty "poi" && truthy (prop_name feature) then
    if truthy (prop_address feature)
    then Some (trim (interpolate (prop_address feature) ++ " " ++ interpolate (prop_name feature)))
    else prop_name feature
  else if truthy (prop_address feature)
  then Some (trim (interpolate (prop_address feature) ++ " " ++ interpolate (text feature)))
  else if truthy (text feature) then text feature
  else None.

(** [s.split(".")[0]] *)
Fixpoint beforeDot (s : string) : string :=
  match s with
  | EmptyString => EmptyString
  | String c s' => if Ascii.eqb c "."%char then EmptyString else String c (beforeDot s')
  end.

(** [s.replace("US-", empty)]: the first occurrence only. *)
Fixpoint dropFirstUS (s : string) : string :=
  match s with
  | EmptyString => EmptyString
  | String c s' =>
      if String.prefix "US-" s then String.substring 3 (String.length s - 3) s
      else String c (dropFirstUS s')
  end.

Record Parts : Type := mkParts {
  p_city : option string;
  p_state : option string;
  p_postalCode : option string;
  p_country : string
}.

Definition contextStep (acc : Parts) (item : ContextItem) : Parts :=
  let id := beforeDot <$> ctx_id item in
  if isType id "place" && negb (truthy (p_city acc))
  then mkParts (ctx_text item) (p_state acc) (p_postalCode acc) (p_country acc)
  else if isType id "region"
  then mkParts (p_city acc)
         (if truthy (dropFirstUS <$> ctx_short_code item)
          then dropFirstUS <$> ctx_short_code item else ctx_text item)
         (p_postalCode acc) (p_country acc)
  else if isType id "postcode"
  then mkParts (p_city acc) (p_state acc) (ctx_text item) (p_country acc)
  else if isType id "country"
  then mkParts (p_city acc) (p_state acc) (p_postalCode acc)
         (orElse (ctx_short_code item) "US")
  else acc.

(** [x || undefined] *)
Definition keepTruthy (o : option string) : option string :=
  if truthy o then o else None.

(** The body of the [try] block once the features are at hand. *)
Definition addressOfFeatures (allowImprecise : bool) (first : Feature) (rest : list Feature)
  : option GeocodeAddress :=
  let feature := selectFeature first rest in
  let ty := featureType feature in
  let isPreciseLocation := isType ty "poi" || isType ty "address" in
  let isCityLevel := isType ty "place" || isType ty "region" in
  if negb allowImprecise && negb isPreciseLocation && isCityLevel then None
  else
    let street := streetOf feature in
    let parts := fold_left contextStep (default [] (context feature))
                   (mkParts None None None "US") in
    if negb (truthy street) && negb allowImprecise then None
    else Some (mkAddress (keepTruthy street) (keepTruthy (p_city parts))
                 (keepTruthy (p_state parts)) (keepTruthy (p_postalCode parts))
                 (Some (p_country parts))).

(** [reverseGeocode(lat, lon, { allowImprecise })]: [null] is [Ok None]. *)
Definition reverseGeocode (env : Env) (log : list request)
    (lat lon : float) (allowImprecise : bool)
  : result (option GeocodeAddress) * list request :=
  if negb (truthy (MAPBOX_TOKEN env))
  then (Throw "MAPBOX_TOKEN must be set in environment", log)
  else
    match send env log (ReverseLookup lon lat) with
    | (Http true (Some (first :: rest)), log') =>
        (Ok (addressOfFeatures allowImprecise first rest), log')
    | (_, log') => (Ok None, log')
    end.

(** The precision score of a candidate. *)
Definition precision (f : Feature) : nat := precisionOf (featureType f).

(** The parts of a cache key: the components present, normalised. *)
Definition normalParts (parts : list (option string)) : list string :=
  map (fun p => trim (toLowerCase p)) (filterTruthy parts).

End Geocode.

(** ** Upsert engine (lib/jobs.ts, lib/postgis.ts) *)

Module Jobs.
Import JS.
Export Geocode (result, Ok, Throw).

Inductive JobSource : Type :=
| ADZUNA | USAJOBS | MANUAL | LINKEDIN | INDEED | ZIPRECRUITER
| GOOGLE_JOBS | ARIZONA_JOB_CONNECTION.

Inductive EmploymentType : Type :=
| FULL_TIME | PART_TIME | CONTRACT | TEMP | INTERN.

Inductive JobStatus : Type :=
| APPROVED | PENDING | REJECTED.

#[global] Instance JobSource_eq_dec : EqDecision JobSource.
Proof. solve_decision. Defined.
#[global] Instance EmploymentType_eq_dec : EqDecision EmploymentType.
Proof. solve_decision. Defined.
#[global] Instance JobStatus_eq_dec : EqDecision JobStatus.
Proof. solve_decision. Defined.

(** A PostGIS point, [ST_SetSRID(ST_MakePoint(x, y), 4326)]. *)
Record Point : Type := ST_MakePoint { pt_x : float; pt_y : float }.

(** The argument of [upsertJob]. *)
Module Input.
Record JobInput : Type := mkInput {
  source : JobSource;
  sourceId : string;
  title : string;
  company : string;
  description : string;
  url : string;
  street : option string;
  city : option string;
  state : option string;
  postalCode : option string;
  country : option string;
  latitude : float;
  longitude : float;
  employmentType : option EmploymentType;
  payMin : option Z;
  payMax : option Z;
  payCurrency : option string;
  postedAt : Z;
  status : option JobStatus
}.
End Input.
Export Input (JobInput, mkInput).

(** A row of the jobs table. Dates are milliseconds since the epoch. *)
Module Row.
Record Job : Type := mkJob {
  id : string;
  source : JobSource;
  sourceId : string;
  title : string;
  company : string;
  description : string;
  url : string;
  street : option string;
  city : option string;
  state : option string;
  postalCode : option string;
  country : string;
  latitude : float;
  longitude : float;
  locationPoint : Point;
  employmentType : option EmploymentType;
  payMin : option Z;
  payMax : option Z;
  payCurrency : option string;
  status : JobStatus;
  postedAt : Z;
  createdAt : Z;
  updatedAt : Z
}.
End Row.
Export Row (Job, mkJob).

(** The jobs table, in storage order. *)
Definition Table : Type := list Job.

Record UpsertResult : Type := mkUpsert {
  job : option Job;
  created : bool
}.

Definition hasId (jobId : string) (j : Job) : bool := String.eqb (Row.id j) jobId.

(** [WHERE source = $1 AND "sourceId" = $2] *)
Definition hasKey (source : JobSource) (sourceId : string) (j : Job) : bool :=
  bool_decide (Row.source j = source) && String.eqb (Row.sourceId j) sourceId.

(** [UPDATE jobs SET ... WHERE id = jobId] *)
Definition updateWhereId (jobId : string) (f : Job -> Job) (db : Table) : Table :=
  map (fun j => if hasId jobId j then f j else j) db.

(** [SELECT ... FROM jobs WHERE id = jobId] *)
Definition selectById (jobId : string) (db : Table) : list Job :=
  List.filter (hasId jobId) db.

Definition withLocationPoint (p : Point) (j : Job) : Job :=
  mkJob (Row.id j) (Row.source j) (Row.sourceId j) (Row.title j) (Row.company j)
    (Row.description j) (Row.url j) (Row.street j) (Row.city j) (Row.state j)
    (Row.postalCode j) (Row.country j) (Row.latitude j) (Row.longitude j)
    p
    (Row.employmentType j) (Row.payMin j) (Row.payMax j) (Row.payCurrency j)
    (Row.status j) (Row.postedAt j) (Row.createdAt j) (Row.updatedAt j).

(** postgis.ts, [setJobLocationPoint]. *)
Definition setJobLocationPoint (jobId : string) (longitude latitude : float) (db : Table)
  : Table :=
  updateWhereId jobId (withLocationPoint (ST_MakePoint longitude latitude)) db.

(** The SET list of the UPDATE statement: every column but id, source,
    sourceId, locationPoint and createdAt; status only when the input
    carries one. *)
Definition applyUpdate (now : Z) (data : JobInput) (j : Job) : Job :=
  mkJob (Row.id j) (Row.source j) (Row.sourceId j)
    (Input.title data) (Input.company data) (Input.description data) (Input.url data)
    (Input.street data) (Input.city data) (Input.state data) (Input.postalCode data)
    (default "US" (Input.country data))
    (Input.latitude data) (Input.longitude data)
    (Row.locationPoint j)
    (Input.employmentType data) (Input.payMin data) (Input.payMax data)
    (Some (default "USD" (Input.payCurrency data)))
    (match Input.status data with Some s => s | None => Row.status j end)
    (Input.postedAt data) (Row.createdAt j) now.

(** The VALUES list of the INSERT statement. *)
Definition newRow (now : Z) (jobId : string) (defaultStatus : JobStatus) (data : JobInput)
  : Job :=
  mkJob jobId (Input.source data) (Input.sourceId data)
    (Input.title data) (Input.company data) (Input.description data) (Input.url data)
    (Input.street data) (Input.city data) (Input.state data) (Input.postalCode data)
    (default "US" (Input.country data))
    (Input.latitude data) (Input.longitude data)
    (ST_MakePoint (Input.longitude data) (Input.latitude data))
    (Input.employmentType data) (Input.payMin data) (Input.payMax data)
    (Some (default "USD" (Input.payCurrency data)))
    defaultStatus
    (Input.postedAt data) now now.

(** [a !== b] on numbers. *)
Definition strictNe (a b : float) : bool := negb (PrimFloat.eqb a b).

(** [existing.latitude !== data.latitude || existing.longitude !== data.longitude] *)
Definition coordinatesChanged (existing : Job) (data : JobInput) : bool :=
  strictNe (Row.latitude existing) (Input.latitude data)
  || strictNe (Row.longitude existing) (Input.longitude data).

(** [!data.sourceId || data.sourceId.trim()] is the empty string. *)
Definition sourceIdMissing (data : JobInput) : bool :=
  negb (truthy (Some (Input.sourceId data)))
  || String.eqb (trim (Input.sourceId data)) EmptyString.

(** [data.status || (data.source === JobSource.MANUAL ? PENDING : APPROVED)] *)
Definition defaultStatus (data : JobInput) : JobStatus :=
  match Input.status data with
  | Some s => s
  | None => if bool_decide (Input.source data = MANUAL) then PENDING else APPROVED
  end.

(** [upsertJob]. [now] is the database's NOW() and [jobId] the
    identifier [generateId()] draws, used on the insert path only; the
    primary key of the table rejects an identifier already in use.
    Apart from that the database is taken to execute every statement:
    the values fit their columns and the connection holds. *)
Definition upsertJob (now : Z) (jobId : string) (data : JobInput) (db : Table)
  : result UpsertResult * Table :=
  if sourceIdMissing data
  then (Throw ("sourceId is required but was: " ++ Input.sourceId data), db)
  else
    let existingJobs := List.filter (hasKey (Input.source data) (Input.sourceId data)) db in
    match existingJobs with
    | existing :: _ =>
        let db1 := updateWhereId (Row.id existing) (applyUpdate now data) db in
        let db2 :=
          if coordinatesChanged existing data
          then setJobLocationPoint (Row.id existing)
                 (Input.longitude data) (Input.latitude data) db1
          else db1 in
        (Ok (mkUpsert (head (selectById (Row.id existing) db2)) false), db2)
    | [] =>
        if existsb (hasId jobId) db
        then (Throw "Unique constraint failed on the fields: (id)", db)
        else
          let db1 := (db ++ [newRow now jobId (defaultStatus data) data])%list in
          match selectById jobId db1 with
          | [] => (Throw "Failed to create job", db1)
          | j :: _ => (Ok (mkUpsert (Some j) true), db1)
          end
    end.

(** The row stored under a (source, sourceId) key. *)
Definition stored (source : JobSource) (sourceId : string) (db : Table) : option Job :=
  head (List.filter (hasKey source sourceId) db).

(** What the update path does to the row it found: the UPDATE
    statement, then [setJobLocationPoint] when the coordinates changed. *)
Definition updated (now : Z) (data : JobInput) (existing : Job) (j : Job) : Job :=
  if coordinatesChanged existing data
  then withLocationPoint
         (ST_MakePoint (Input.longitude data) (Input.latitude data))
         (applyUpdate now data j)
  else applyUpdate now data j.

End Jobs.

(** ** Read-through cache (lib/redis.ts) *)

Module Redis.
Import JS.

(** A value as [JSON.stringify] sees the search parameters. *)
Inductive json : Type :=
| JString (s : string)
| JNumber (n : Z).

Definition hexDigit (n : nat) : ascii :=
  ascii_of_nat (if (n <? 10)%nat then 48 + n else 87 + n).

Definition quote : string := String (ascii_of_nat 34) EmptyString.

(** Escapes of [JSON.stringify] inside a string literal. *)
Definition escapeChar (c : ascii) : string :=
  match code c with
  | 34%nat => "\" ++ quote
  | 92%nat => "\\"
  | 8%nat => "\b"
  | 9%nat => "\t"
  | 10%nat => "\n"
  | 12%nat => "\f"
  | 13%nat => "\r"
  | n =>
      if (n <? 32)%nat
      then "\u00" ++ String (hexDigit (n / 16)) (String (hexDigit (n mod 16)) EmptyString)
      else String c EmptyString
  end.

Fixpoint escape (s : string) : string :=
  match s with
  | EmptyString => EmptyString
  | String c s' => escapeChar c ++ escape s'
  end.

Definition stringify (v : json) : string :=
  match v with
  | JString s => quote ++ escape s ++ quote
  | JNumber n => NilZero.string_of_int (Z.to_int n)
  end.

(** [Array.prototype.sort] on the parameter names. *)
Fixpoint insertKey (k : string * json) (l : list (string * json)) : list (string * json) :=
  match l with
  | [] => [k]
  | x :: rest => if String.ltb (fst k) (fst x) then k :: x :: rest else x :: insertKey k rest
  end.

Definition sortKeys (params : list (string * json)) : list (string * json) :=
  fold_right insertKey [] params.

Definition getCacheKey (prefix : string) (params : list (string * json)) : string :=
  prefix ++ ":" ++
  join "|" (map (fun kv => fst kv ++ ":" ++ stringify (snd kv)) (sortKeys params)).

(** A key set with SETEX: the value and the instant it expires. *)
Record Entry (V : Type) : Type := mkEntry {
  value : V;
  expiresAt : Z
}.
Arguments mkEntry {V} value expiresAt.
Arguments value {V} e.
Arguments expiresAt {V} e.

(** The Redis server: its keys, and whether commands succeed. *)
Record Server (V : Type) : Type := mkServer {
  keys : gmap string (Entry V);
  reachable : bool
}.
Arguments mkServer {V} keys reachable.
Arguments keys {V} s.
Arguments reachable {V} s.

(** The module variable [redis]: [None] when REDIS_URL is not set. *)
Definition Client (V : Type) : Type := option (Server V).

(** [getCache(key)] at time [now] (milliseconds). *)
Definition getCache {V : Type} (now : Z) (redis : Client V) (key : string) : option V :=
  match redis with
  | None => None
  | Some server =>
      if reachable server then
        match keys server !! key with
        | Some e => if now <? expiresAt e then Some (value e) else None
        | None => None
        end
      else None
  end.

(** [setCache(key, value, ttl)], [ttl] in seconds. *)
Definition setCache {V : Type} (now : Z) (redis : Client V) (key : string)
    (v : V) (ttl : Z) : Client V :=
  match redis with
  | None => None
  | Some server =>
      if reachable server
      then Some (mkServer (<[key := mkEntry v (now + ttl * 1000)]> (keys server)) true)
      else Some server
  end.

End Redis.

(** ** Bounding-box search (routes/jobs.ts) *)

Module Search.
Import JS Jobs Redis.

(** What the route relies on from PostgreSQL/PostGIS and from the
    JavaScript runtime. *)
Class Platform : Type := mkPlatform {
  (** [ST_Intersects("locationPoint", ST_MakeEnvelope(x1, y1, x2, y2, 4326))] is true. *)
  ST_Intersects_Envelope : Point -> float -> float -> float -> float -> bool;
  (** [LOWER(value)] *)
  LOWER : string -> string;
  (** [value LIKE pattern] is true. *)
  LIKE : string -> string -> bool;
  (** [Number(s)] *)
  Number : string -> float;
  (** [d.setDate(d.getDate() - n)] on the instant [d]. *)
  daysBefore : Z -> Z -> Z
}.

(** The query string after [searchQuerySchema.parse]. *)
Record SearchParams : Type := mkParams {
  bbox : string;
  q : option string;
  company : option string;
  minPay : option Z;
  maxAgeDays : option Z;
  type : option EmploymentType;
  types : option string;
  limit : Z
}.

(** The constraints of [searchQuerySchema] on the numbers. *)
Definition schemaOk (params : SearchParams) : Prop :=
  (forall n, minPay params = Some n -> 0 < n) /\
  (forall n, maxAgeDays params = Some n -> 0 < n) /\
  0 < limit params <= 500.

Record Bbox : Type := mkBbox {
  minLon : float;
  minLat : float;
  maxLon : float;
  maxLat : float
}.

Definition parseBbox `{Platform} (bbox : string) : Bbox :=
  let parts := map Number (Geocode.splitComma bbox EmptyString) in
  mkBbox (nth 0 parts nan) (nth 1 parts nan) (nth 2 parts nan) (nth 3 parts nan).

Record JobPin : Type := mkPin {
  pin_id : string;
  pin_title : string;
  pin_company : string;
  pin_url : string;
  pin_lat : float;
  pin_lon : float;
  pin_payMin : option Z;
  pin_payMax : option Z;
  pin_postedAt : Z;
  pin_street : option string;
  pin_city : option string;
  pin_state : option string;
  pin_employmentType : option EmploymentType;
  pin_source : JobSource
}.

Definition jobToPin (job : Job) : JobPin :=
  mkPin (Row.id job) (Row.title job) (Row.company job) (Row.url job)
    (Row.latitude job) (Row.longitude job) (Row.payMin job) (Row.payMax job)
    (Row.postedAt job) (Row.street job) (Row.city job) (Row.state job)
    (Row.employmentType job) (Row.source job).

Record SearchResult : Type := mkResult {
  jobs : list JobPin;
  count : nat
}.

Definition employmentTypeName (t : EmploymentType) : string :=
  match t with
  | FULL_TIME => "FULL_TIME"
  | PART_TIME => "PART_TIME"
  | CONTRACT => "CONTRACT"
  | TEMP => "TEMP"
  | INTERN => "INTERN"
  end.

(** [$n::"EmploymentType"]: the cast fails on any other text. *)
Definition castEmploymentType (s : string) : option EmploymentType :=
  List.find (fun t => String.eqb (employmentTypeName t) s)
    [FULL_TIME; PART_TIME; CONTRACT; TEMP; INTERN].

(** Truthiness of an optional number: present and not 0. *)
Definition numberSet (o : option Z) : bool :=
  match o with Some n => negb (n =? 0) | None => false end.

(** [column >= v], which is not true on NULL. *)
Definition sqlGe (column : option Z) (v : Z) : bool :=
  match column with Some c => v <=? c | None => false end.

(** A condition of the WHERE clause, as the set of rows on which it is
    true. *)
Definition Condition : Type := Job -> bool.

Definition bboxCondition `{Platform} (params : SearchParams) : Condition :=
  let b := parseBbox (bbox params) in
  fun j => ST_Intersects_Envelope (Row.locationPoint j)
             (minLon b) (minLat b) (maxLon b) (maxLat b).

Definition keywordCondition `{Platform} (params : SearchParams) : list Condition :=
  if truthy (q params) then
    let searchTerm := "%" ++ toLowerCase (default EmptyString (q params)) ++ "%" in
    [fun j => LIKE (LOWER (Row.title j)) searchTerm
              || LIKE (LOWER (Row.description j)) searchTerm]
  else [].

Definition companyCondition `{Platform} (params : SearchParams) : list Condition :=
  if truthy (company params) then
    let companyTerm := "%" ++ toLowerCase (default EmptyString (company params)) ++ "%" in
    [fun j => LIKE (LOWER (Row.company j)) companyTerm]
  else [].

Definition payCondition (params : SearchParams) : list Condition :=
  if numberSet (minPay params) then
    let m := default 0 (minPay params) in
    [fun j => sqlGe (Row.payMax j) m || sqlGe (Row.payMin j) m]
  else [].

Definition ageCondition `{Platform} (now : Z) (params : SearchParams) : list Condition :=
  if numberSet (maxAgeDays params) then
    let cutoffDate := daysBefore now (default 0 (maxAgeDays params)) in
    [fun j => cutoffDate <=? Row.postedAt j]
  else [].

Definition hasType (t : EmploymentType) : Condition :=
  fun j => bool_decide (Row.employmentType j = Some t).

(** The employment-type conditions; [Throw] when a member of [types] is
    not a value of the enum, which the database reports when the
    statement runs. *)
Definition typeCondition (params : SearchParams) : result (list Condition) :=
  if truthy (types params) then
    let names := map trim (Geocode.splitComma (default EmptyString (types params)) EmptyString) in
    match mapM castEmploymentType names with
    | Some ts => Ok [fun j => existsb (fun t => hasType t j) ts]
    | None => Throw "invalid input value for enum EmploymentType"
    end
  else
    match type params with
    | Some t => Ok [hasType t]
    | None => Ok []
    end.

Definition approvedCondition : Condition :=
  fun j => bool_decide (Row.status j = APPROVED).

(** [street IS NOT NULL AND street != ''] *)
Definition streetCondition : Condition :=
  fun j => truthy (Row.street j).

(** [whereParts], joined by AND. *)
Definition whereParts `{Platform} (now : Z) (params : SearchParams)
  : result (list Condition) :=
  match typeCondition params with
  | Throw e => Throw e
  | Ok typeParts =>
      Ok ([bboxCondition params]
          ++ keywordCondition params
          ++ companyCondition params
          ++ payCondition params
          ++ ageCondition now params
          ++ typeParts
          ++ [approvedCondition; streetCondition])%list
  end.

Definition satisfies (parts : list Condition) (j : Job) : bool :=
  forallb (fun c => c j) parts.

(** [ORDER BY "postedAt" DESC]: rows posted at the same instant keep
    their storage order. *)
Fixpoint insertByPostedAt (j : Job) (sorted : list Job) : list Job :=
  match sorted with
  | [] => [j]
  | x :: rest =>
      if Row.postedAt x <? Row.postedAt j
      then j :: x :: rest
      else x :: insertByPostedAt j rest
  end.

Definition orderByPostedAtDesc (rows : list Job) : list Job :=
  fold_right insertByPostedAt [] rows.

(** The rows that match the WHERE clause, before ORDER BY and LIMIT. *)
Definition matching `{Platform} (now : Z) (params : SearchParams) (db : Table)
  : result (list Job) :=
  match whereParts now params with
  | Throw e => Throw e
  | Ok parts => Ok (List.filter (satisfies parts) db)
  end.

(** The SELECT statement of the search route. *)
Definition searchQuery `{Platform} (now : Z) (params : SearchParams) (db : Table)
  : result (list Job) :=
  match matching now params db with
  | Throw e => Throw e
  | Ok rows => Ok (take (Z.to_nat (limit params)) (orderByPostedAtDesc rows))
  end.

Definition typesText (params : SearchParams) : string :=
  if truthy (types params) then default EmptyString (types params)
  else match type params with
       | Some t => employmentTypeName t
       | None => EmptyString
       end.

Definition searchCacheKey (params : SearchParams) : string :=
  getCacheKey "jobs:search"
    [("bbox", JString (bbox params));
     ("q", JString (orElse (q params) EmptyString));
     ("company", JString (orElse (company params) EmptyString));
     ("minPay", JNumber (default 0 (minPay params)));
     ("maxAgeDays", JNumber (default 0 (maxAgeDays params)));
     ("types", JString (typesText params));
     ("limit", JNumber (limit params))].

(** [params.q || params.company || params.minPay || params.maxAgeDays ? 180 : 300] *)
Definition ttlFor (params : SearchParams) : Z :=
  if truthy (q params) || truthy (company params)
     || numberSet (minPay params) || numberSet (maxAgeDays params)
  then 180 else 300.

(** What the route answers. *)
Inductive Reply : Type :=
| Hit (cached : SearchResult)          (* 200, X-Cache: HIT *)
| Miss (result : SearchResult)         (* 200, X-Cache: MISS *)
| InternalError (message : string).    (* 500 *)

(** GET /v1/jobs/search on validated parameters. *)
Definition searchHandler `{Platform} (now : Z) (params : SearchParams)
    (db : Table) (redis : Client SearchResult) : Reply * Client SearchResult :=
  let cacheKey := searchCacheKey params in
  match getCache now redis cacheKey with
  | Some cached => (Hit cached, redis)
  | None =>
      match searchQuery now params db with
      | Throw e => (InternalError e, redis)
      | Ok rows =>
          let pins := map jobToPin rows in
          let result := mkResult pins (List.length pins) in
          (Miss result, setCache now redis cacheKey result (ttlFor params))
      end
  end.

End Search.

(** ** Vocabulary of the specification *)

Module Spec.
Import JS.

(** [mn] is the least element of [ns]. *)
Definition is_min (mn : Z) (ns : list Z) : Prop :=
  mn ∈ ns ∧ Forall (fun n => mn <= n) ns.

(** [mx] is the greatest element of [ns]. *)
Definition is_max (mx : Z) (ns : list Z) : Prop :=
  mx ∈ ns ∧ Forall (fun n => n <= mx) ns.



(** *** Addresses that differ in case and white space only *)

Definition isUpper (c : ascii) : Prop := (65 <= code c <= 90)%nat.

(** The same letter, in either case. *)
Definition sameLetter (c d : ascii) : Prop :=
  c = d ∨ (isUpper c ∧ code d = (code c + 32)%nat) ∨ (isUpper d ∧ code c = (code d + 32)%nat).

Inductive sameLetters : string -> string -> Prop :=
| sameLetters_nil : sameLetters EmptyString EmptyString
| sameLetters_cons c d s t :
    sameLetter c d -> sameLetters s t -> sameLetters (String c s) (String d t).

Fixpoint blank (s : string) : bool :=
  match s with
  | EmptyString => true
  | String c s' => isWhiteSpace c && blank s'
  end.

(** [s] is [core] with white space before and after it. *)
Definition padded (s core : string) : Prop :=
  ∃ l r, blank l = true ∧ blank r = true ∧ s = (l ++ core ++ r)%string.

(** [s] and [t] differ in letter case and in leading or trailing white
    space only. *)
Definition variant (s t : string) : Prop :=
  ∃ cs ct, padded s cs ∧ padded t ct ∧ sameLetters cs ct.

(** The same for a component of an address, an absent component
    counting as an empty one. *)
Definition variantField (x y : option string) : Prop :=
  variant (default EmptyString x) (default EmptyString y).

(** Two addresses that differ only in letter case, in leading or
    trailing white space, or in the country being unset in one and US
    in the other. *)
Definition variantAddress (a b : Geocode.GeocodeAddress) : Prop :=
  variantField (Geocode.street a) (Geocode.street b) ∧
  variantField (Geocode.city a) (Geocode.city b) ∧
  variantField (Geocode.state a) (Geocode.state b) ∧
  variantField (Geocode.postalCode a) (Geocode.postalCode b) ∧
  variant (orElse (Geocode.country a) "US") (orElse (Geocode.country b) "US").

(** The same components are empty or absent in both addresses. *)
Definition samePresence (a b : Geocode.GeocodeAddress) : Prop :=
  truthy (Geocode.street a) = truthy (Geocode.street b) ∧
  truthy (Geocode.city a) = truthy (Geocode.city b) ∧
  truthy (Geocode.state a) = truthy (Geocode.state b) ∧
  truthy (Geocode.postalCode a) = truthy (Geocode.postalCode b).

(** A city- or region-level match. *)
Definition cityLevel (ty : option string) : Prop :=
  ty = Some "place" ∨ ty = Some "region".

(** *** The jobs table *)

(** The primary key of the jobs table: no two rows share an id. *)
Definition uniqueIds (db : Jobs.Table) : Prop := NoDup (map Jobs.Row.id db).

(** [j] with its system-managed [updatedAt] set to [t]. *)
Definition withUpdatedAt (t : Z) (j : Jobs.Row.Job) : Jobs.Row.Job :=
  Jobs.Row.mkJob (Jobs.Row.id j) (Jobs.Row.source j) (Jobs.Row.sourceId j)
    (Jobs.Row.title j) (Jobs.Row.company j) (Jobs.Row.description j) (Jobs.Row.url j)
    (Jobs.Row.street j) (Jobs.Row.city j) (Jobs.Row.state j) (Jobs.Row.postalCode j)
    (Jobs.Row.country j) (Jobs.Row.latitude j) (Jobs.Row.longitude j)
    (Jobs.Row.locationPoint j) (Jobs.Row.employmentType j) (Jobs.Row.payMin j)
    (Jobs.Row.payMax j) (Jobs.Row.payCurrency j) (Jobs.Row.status j)
    (Jobs.Row.postedAt j) (Jobs.Row.createdAt j) t.


(** *** Search *)

(** An optional filter is present in the request: keyword, company,
    minimum pay, maximum age, or employment type (single or list). *)
Definition anyOptionalFilter (params : Search.SearchParams) : bool :=
  bool_decide (is_Some (Search.q params))
  || bool_decide (is_Some (Search.company params))
  || bool_decide (is_Some (Search.minPay params))
  || bool_decide (is_Some (Search.maxAgeDays params))
  || bool_decide (is_Some (Search.type params))
  || bool_decide (is_Some (Search.types params)).

(** The time to live the specification announces. *)
Definition announcedTtl (params : Search.SearchParams) : Z :=
  if anyOptionalFilter params then 180 else 300.

(** The filters that shorten the time to live: a non-empty keyword or
    company, a minimum pay, a maximum age. *)
Definition shortLived (params : Search.SearchParams) : bool :=
  truthy (Search.q params)
  || truthy (Search.company params)
  || bool_decide (is_Some (Search.minPay params))
  || bool_decide (is_Some (Search.maxAgeDays params)).

(** A row is visible to search: approved, with a street. *)
Definition visible (j : Jobs.Row.Job) : Prop :=
  Jobs.Row.status j = Jobs.APPROVED ∧ truthy (Jobs.Row.street j) = true.

End Spec.

(** ** Scenarios

    Concrete environments and inputs the properties below are run on. *)

Module Scenario.
Import JS Geocode.

(** "123 N Central Ave, Phoenix, AZ, 85004, US" *)
Definition centralAve : GeocodeAddress :=
  mkAddress (Some "123 N Central Ave") (Some "Phoenix") (Some "AZ") (Some "85004")
    (Some "US").

(** The same address as a form might send it: other case, padding, no
    country. *)
Definition centralAveTyped : GeocodeAddress :=
  mkAddress (Some " 123 n central AVE") (Some "PHOENIX ") (Some "az") (Some "85004")
    None.

(** Two addresses whose street is white space in one and empty in the
    other. *)
Definition blankStreet : GeocodeAddress :=
  mkAddress (Some " ") (Some "Phoenix") (Some "AZ") None (Some "US").

Definition emptyStreet : GeocodeAddress :=
  mkAddress (Some EmptyString) (Some "Phoenix") (Some "AZ") None (Some "US").

Definition featureAt (lon lat : float) (ty : string) (name : string) : Feature :=
  mkFeature (Some (lon, lat)) (Some [ty]) (Some name) None None None.

(** A Mapbox that knows Phoenix: the city for a place lookup, a street
    address for a forward lookup, and the city only for a reverse
    lookup. *)
Definition phoenix (n : nat) (req : request) : response :=
  match req with
  | PlaceLookup _ => Http true (Some [featureAt (-112.0)%float 33.5%float "place" "Phoenix"])
  | ForwardLookup _ _ _ =>
      Http true (Some [featureAt (-112.0625)%float 33.4375%float "address" "N Central Ave"])
  | ReverseLookup _ _ =>
      Http true (Some [featureAt (-112.0)%float 33.5%float "place" "Phoenix";
                       featureAt (-112.0)%float 33.5%float "region" "Arizona"])
  end.

(** A Mapbox that cannot be reached. *)
Definition unreachable (n : nat) (req : request) : response := Rejected.

Definition online : Env := mkEnv (Some "pk.test") phoenix true true.

(** No token and no network; the geocode cache can be read. *)
Definition offline : Env := mkEnv None unreachable true true.

Definition fresh : State := mkState ∅ [].

(** The state after the first resolution of [centralAve]. *)
Definition afterFirst : State := snd (geocodeAddress online fresh centralAve).

(** *** A posting and a table *)

Import Jobs.

(** A barista posting as the Adzuna adapter would submit it. *)
Definition barista : JobInput :=
  mkInput ADZUNA "adz-1001" "Barista" "Cartel Coffee" "Espresso bar, mornings"
    "https://example.com/jobs/1001"
    (Some "123 N Central Ave") (Some "Phoenix") (Some "AZ") (Some "85004") None
    33.4375%float (-112.0625)%float
    (Some PART_TIME) (Some 31200) (Some 41600) None
    1700000000000 None.

(** The same posting with a sourceId of white space. *)
Definition anonymous : JobInput :=
  mkInput ADZUNA "  " "Barista" "Cartel Coffee" "Espresso bar, mornings"
    "https://example.com/jobs/1001"
    (Some "123 N Central Ave") (Some "Phoenix") (Some "AZ") (Some "85004") None
    33.4375%float (-112.0625)%float
    (Some PART_TIME) (Some 31200) (Some 41600) None
    1700000000000 None.

(** The posting as re-ingested later: new title and pay, moved one
    block north. *)
Definition baristaMoved : JobInput :=
  mkInput ADZUNA "adz-1001" "Senior Barista" "Cartel Coffee" "Espresso bar, mornings"
    "https://example.com/jobs/1001"
    (Some "225 N Central Ave") (Some "Phoenix") (Some "AZ") (Some "85004") None
    33.5%float (-112.0625)%float
    (Some FULL_TIME) (Some 41600) (Some 52000) None
    1700500000000 None.

(** A stored row for the barista posting that a moderator rejected. *)
Definition rejectedBarista : Job :=
  mkJob "c1" ADZUNA "adz-1001" "Barista" "Cartel Coffee" "Espresso bar, mornings"
    "https://example.com/jobs/1001"
    (Some "123 N Central Ave") (Some "Phoenix") (Some "AZ") (Some "85004") "US"
    33.4375%float (-112.0625)%float
    (ST_MakePoint (-112.0625)%float 33.4375%float)
    (Some PART_TIME) (Some 31200) (Some 41600) (Some "USD")
    REJECTED 1700000000000 1700000100000 1700000200000.

(** An approved posting of another source, elsewhere in Phoenix. *)
Definition nurse : Job :=
  mkJob "c2" USAJOBS "usa-7" "Nurse" "VA Hospital" "Night shift"
    "https://example.com/jobs/7"
    (Some "650 E Indian School Rd") (Some "Phoenix") (Some "AZ") (Some "85012") "US"
    33.5%float (-112.0)%float
    (ST_MakePoint (-112.0)%float 33.5%float)
    (Some FULL_TIME) (Some 70000) (Some 90000) (Some "USD")
    APPROVED 1700300000000 1700300000000 1700300000000.

Definition table : Table := [nurse; rejectedBarista].

(** *** A database and a search *)

Import Search Redis.

Fixpoint contains (needle hay : string) : bool :=
  String.prefix needle hay
  || match hay with
     | EmptyString => false
     | String _ rest => contains needle rest
     end.

(** A platform for the scenarios: a point intersects an envelope when
    it lies between its corners, LIKE is decided for patterns of the
    form %term% without a wildcard in the term, Number knows the
    literals used below, and a day has 86400000 milliseconds. *)
Definition postgres : Platform :=
  mkPlatform
    (fun p x1 y1 x2 y2 =>
       PrimFloat.leb x1 (pt_x p) && PrimFloat.leb (pt_x p) x2
       && PrimFloat.leb y1 (pt_y p) && PrimFloat.leb (pt_y p) y2)
    toLowerCase
    (fun v pattern => contains (String.substring 1 (String.length pattern - 2) pattern) v)
    (fun s =>
       if String.eqb s "-113" then (-113.0)%float
       else if String.eqb s "33" then 33.0%float
       else if String.eqb s "-111" then (-111.0)%float
       else if String.eqb s "34" then 34.0%float
       else nan)
    (fun now n => now - n * 86400000).

(** An approved posting without a street. *)
Definition clerk : Job :=
  mkJob "c5" LINKEDIN "li-3" "Clerk" "City of Phoenix" "Front desk"
    "https://example.com/jobs/3"
    None (Some "Phoenix") (Some "AZ") None "US"
    33.4375%float (-112.0625)%float
    (ST_MakePoint (-112.0625)%float 33.4375%float)
    (Some FULL_TIME) None None (Some "USD")
    APPROVED 1700400000000 1700400000000 1700400000000.

(** A second approved posting with a street, posted last. *)
Definition teacher : Job :=
  mkJob "c6" INDEED "in-9" "Teacher" "Phoenix Union" "High school, maths"
    "https://example.com/jobs/9"
    (Some "4502 N Central Ave") (Some "Phoenix") (Some "AZ") (Some "85012") "US"
    33.5%float (-112.0625)%float
    (ST_MakePoint (-112.0625)%float 33.5%float)
    (Some FULL_TIME) (Some 50000) (Some 60000) (Some "USD")
    APPROVED 1700500000000 1700500000000 1700500000000.

Definition board : Table := [nurse; rejectedBarista; clerk; teacher].

(** Searches over the Phoenix area: no filter; no filter and one
    result at most; full-time postings only. *)
Definition phoenixArea : SearchParams :=
  mkParams "-113,33,-111,34" None None None None None None 200.

Definition phoenixTop : SearchParams :=
  mkParams "-113,33,-111,34" None None None None None None 1.

Definition phoenixFullTime : SearchParams :=
  mkParams "-113,33,-111,34" None None None None (Some FULL_TIME) None 200.

(** A Redis server without keys. *)
Definition emptyRedis : Client SearchResult := Some (mkServer ∅ true).

End Scenario.

(** ** Detail and suggestion routes (routes/jobs.ts) *)

Module Detail.
Import JS Jobs Redis Search.

Record JobDetail : Type := mkDetail {
  d_id : string;
  d_source : JobSource;
  d_sourceId : string;
  d_title : string;
  d_company : string;
  d_description : string;
  d_url : string;
  d_street : option string;
  d_city : option string;
  d_state : option string;
  d_postalCode : option string;
  d_country : string;
  d_latitude : float;
  d_longitude : float;
  d_employmentType : option EmploymentType;
  d_payMin : option Z;
  d_payMax : option Z;
  d_payCurrency : option string;
  d_postedAt : Z;
  d_createdAt : Z;
  d_updatedAt : Z
}.

Definition jobToDetail (job : Job) : JobDetail :=
  mkDetail (Row.id job) (Row.source job) (Row.sourceId job) (Row.title job)
    (Row.company job) (Row.description job) (Row.url job)
    (Row.street job) (Row.city job) (Row.state job) (Row.postalCode job)
    (Row.country job) (Row.latitude job) (Row.longitude job)
    (Row.employmentType job) (Row.payMin job) (Row.payMax job) (Row.payCurrency job)
    (Row.postedAt job) (Row.createdAt job) (Row.updatedAt job).

Inductive DetailReply : Type :=
| Found (detail : JobDetail)     (* 200 *)
| NotFound.                      (* 404, "Job not found" *)

(** [WHERE id = $1 AND status = 'APPROVED'] *)
Definition approvedWithId (id : string) (j : Job) : bool :=
  hasId id j && bool_decide (Row.status j = APPROVED).

(** GET /v1/jobs/:id *)
Definition jobDetailHandler (id : string) (db : Table) : DetailReply :=
  match List.filter (approvedWithId id) db with
  | [] => NotFound
  | job :: _ => Found (jobToDetail job)
  end.

(** [SELECT DISTINCT]: the values, each once. *)
Fixpoint distinct (l : list string) : list string :=
  match l with
  | [] => []
  | x :: rest => x :: List.filter (fun y => negb (String.eqb y x)) (distinct rest)
  end.

(** [ORDER BY] a text column; [before a b] when the collation of the
    database puts [a] strictly before [b]. *)
Fixpoint insertText (before : string -> string -> bool) (x : string) (l : list string)
  : list string :=
  match l with
  | [] => [x]
  | y :: rest => if before x y then x :: y :: rest else y :: insertText before x rest
  end.

Definition orderText (before : string -> string -> bool) (l : list string) : list string :=
  fold_right (insertText before) [] l.

Inductive SuggestReply : Type :=
| TooShort                              (* no suggestion, no cache header *)
| Cached (suggestions : list string)    (* X-Cache: HIT *)
| Computed (suggestions : list string). (* X-Cache: MISS *)

Definition suggestionKey (q : string) (type : option string) : string :=
  getCacheKey "jobs:suggestions"
    [("q", JString q); ("type", JString (orElse type "title"))].

(** The column the suggestions are drawn from. *)
Definition suggestionColumn (type : option string) : Job -> string :=
  match type with
  | Some t => if String.eqb t "company" then Row.company else Row.title
  | None => Row.title
  end.

(** The statement of the suggestion route: the distinct values of the
    column on approved rows that match the term, ordered, ten at most. *)
Definition suggestionQuery `{Platform} (before : string -> string -> bool)
    (q : string) (type : option string) (db : Table) : list string :=
  let searchTerm := "%" ++ toLowerCase q ++ "%" in
  let column := suggestionColumn type in
  take 10
    (orderText before
       (distinct
          (map column
             (List.filter
                (fun j => LIKE (LOWER (column j)) searchTerm
                          && bool_decide (Row.status j = APPROVED))
                db)))).

(** GET /v1/jobs/suggestions *)
Definition suggestionsHandler `{Platform} (before : string -> string -> bool) (now : Z)
    (q type : option string) (db : Table) (redis : Client (list string))
  : SuggestReply * Client (list string) :=
  if negb (truthy q) || (String.length (default EmptyString q) <? 2)%nat
  then (TooShort, redis)
  else
    let text := default EmptyString q in
    let cacheKey := suggestionKey text type in
    match getCache now redis cacheKey with
    | Some cached => (Cached cached, redis)
    | None =>
        let result := suggestionQuery before text type db in
        (Computed result, setCache now redis cacheKey result 3600)
    end.

End Detail.

(** ** Moderation (routes/admin.ts) *)

Module Admin.
Import JS Jobs Search.

(** [validateAdminKey]: no key configured, no access. *)
Definition validateAdminKey (ADMIN_KEY : option string) (provided : option string) : bool :=
  if truthy ADMIN_KEY
  then match provided with
       | Some p => String.eqb p (default EmptyString ADMIN_KEY)
       | None => false
       end
  else false.

Inductive AdminReply : Type :=
| Unauthorized                 (* 401 *)
| JobNotFound                  (* 404 *)
| Decided (job : JobPin).      (* 200 *)

Definition withStatus (s : JobStatus) (updatedAt : Z) (j : Job) : Job :=
  mkJob (Row.id j) (Row.source j) (Row.sourceId j) (Row.title j) (Row.company j)
    (Row.description j) (Row.url j) (Row.street j) (Row.city j) (Row.state j)
    (Row.postalCode j) (Row.country j) (Row.latitude j) (Row.longitude j)
    (Row.locationPoint j)
    (Row.employmentType j) (Row.payMin j) (Row.payMax j) (Row.payCurrency j)
    s (Row.postedAt j) (Row.createdAt j) updatedAt.

(** What the approve and reject routes share, [decision] being the
    status they write. The Prisma schema is not part of the sources:
    [stamps] tells whether it declares updatedAt with @updatedAt, in
    which case the update sets it to [now]. *)
Definition moderate (stamps : bool) (ADMIN_KEY provided : option string) (now : Z)
    (decision : JobStatus) (id : string) (db : Table) : AdminReply * Table :=
  if negb (validateAdminKey ADMIN_KEY provided) then (Unauthorized, db)
  else
    match selectById id db with
    | [] => (JobNotFound, db)
    | _ :: _ =>
        let db' :=
          updateWhereId id
            (fun j => withStatus decision (if stamps then now else Row.updatedAt j) j) db in
        match selectById id db' with
        | updated :: _ => (Decided (jobToPin updated), db')
        | [] => (JobNotFound, db')
        end
    end.



End Admin.

(** ** Employer submissions (routes/employer.ts) *)

Module Employer.
Import JS Jobs Geocode.

Definition RATE_LIMIT_WINDOW : Z := 60 * 60 * 1000.
Definition RATE_LIMIT_MAX : Z := 5.

Record Limit : Type := mkLimit {
  count : Z;
  resetAt : Z
}.

(** [rateLimitStore] *)
Definition Store : Type := gmap string Limit.

Record Check : Type := mkCheck {
  allowed : bool;
  remaining : Z
}.

Definition checkRateLimit (now : Z) (ip : string) (store : gmap string Limit)
  : Check * gmap string Limit :=
  match store !! ip with
  | Some record =>
      if resetAt record <? now
      then (mkCheck true (RATE_LIMIT_MAX - 1),
            <[ip := mkLimit 1 (now + RATE_LIMIT_WINDOW)]> store)
      else if RATE_LIMIT_MAX <=? count record
      then (mkCheck false 0, store)
      else (mkCheck true (RATE_LIMIT_MAX - (count record + 1)),
            <[ip := mkLimit (count record + 1) (resetAt record)]> store)
  | None =>
      (mkCheck true (RATE_LIMIT_MAX - 1),
       <[ip := mkLimit 1 (now + RATE_LIMIT_WINDOW)]> store)
  end.

(** The periodic clean-up: entries whose window is over are deleted. *)
Definition sweep (now : Z) (store : gmap string Limit) : gmap string Limit :=
  filter (fun entry => ¬ (resetAt (snd entry) < now)) store.

(** [getClientIP] on the three places an address is read from. *)
Definition getClientIP (forwardedFor realIp remoteAddress : option string) : string :=
  let first := (fun s => hd EmptyString (splitComma s EmptyString)) <$> forwardedFor in
  if truthy first then default EmptyString first
  else if truthy realIp then default EmptyString realIp
  else if truthy remoteAddress then default EmptyString remoteAddress
  else "unknown".

(** The body of a submission after [employerPostSchema.parse]. *)
Record Post : Type := mkPost {
  company : string;
  title : string;
  description : string;
  employmentType : option EmploymentType;
  payMin : option Z;
  payMax : option Z;
  url : string;
  street : string;
  city : string;
  state : string;
  postalCode : string;
  country : string;
  hCaptcha : option string
}.

Record Posted : Type := mkPosted {
  posted_id : string;
  posted_title : string;
  posted_company : string;
  posted_latitude : float;
  posted_longitude : float
}.

Inductive PostReply : Type :=
| TooManyRequests (retryAfter : Z)     (* 429 *)
| ValidationError                      (* 400, the body does not parse *)
| CaptchaRequired                      (* 400 *)
| GeocodingFailed                      (* 422 *)
| Success (job : Posted)               (* 200 *)
| ServerError (message : string).      (* 500 *)

(** What the route works on: the counters, the geocoder and the table. *)
Record World : Type := mkWorld {
  limits : gmap string Limit;
  geocoder : State;
  jobs : Table
}.

(** [x || null] on an optional number. *)
Definition nonZero (o : option Z) : option Z :=
  match o with
  | Some n => if n =? 0 then None else Some n
  | None => None
  end.

(** [Math.ceil(ms / 1000)] *)
Definition ceilSeconds (ms : Z) : Z := - ((- ms) / 1000).

(** The job the route upserts for a body and a coordinate. [suffix] is
    what [generateId] appends to "manual-". *)
Definition submission (postedAt : Z) (suffix : string) (body : Post) (at_ : GeocodeResult)
  : JobInput :=
  mkInput MANUAL ("manual-" ++ suffix) (title body) (company body) (description body)
    (url body)
    (Some (street body)) (Some (city body)) (Some (state body)) (Some (postalCode body))
    (Some (country body))
    (lat at_) (lon at_)
    (employmentType body) (nonZero (payMin body)) (nonZero (payMax body)) (Some "USD")
    postedAt None.

(** The clock, each time the route reads it. *)
Record Clock : Type := mkClock {
  checked : Z;    (* Date.now() of checkRateLimit *)
  answered : Z;   (* Date.now() of the 429 answer *)
  postedNow : Z;  (* new Date() for postedAt *)
  storedNow : Z   (* the time upsertJob writes *)
}.

(** POST /v1/employer/post. [body] is [None] when the request body does
    not satisfy the schema; [suffix] and [jobId] are the identifiers the
    route and [upsertJob] generate. *)
Definition postJob (env : Env) (clock : Clock) (suffix jobId : string)
    (ip : string) (body : option Post) (w : World) : PostReply * World :=
  let (rateLimit, limits') := checkRateLimit (checked clock) ip (limits w) in
  if negb (allowed rateLimit)
  then (TooManyRequests
          (ceilSeconds (default 0 (resetAt <$> (limits' !! ip)) - answered clock)),
        mkWorld limits' (geocoder w) (jobs w))
  else
    match body with
    | None => (ValidationError, mkWorld limits' (geocoder w) (jobs w))
    | Some body =>
        if negb (truthy (hCaptcha body))
        then (CaptchaRequired, mkWorld limits' (geocoder w) (jobs w))
        else
          let address := mkAddress (Some (street body)) (Some (city body))
                           (Some (state body)) (Some (postalCode body))
                           (Some (country body)) in
          match geocodeAddressSafe env (geocoder w) (inl address) with
          | (None, geocoder') => (GeocodingFailed, mkWorld limits' geocoder' (jobs w))
          | (Some geocodeResult, geocoder') =>
              match upsertJob (storedNow clock) jobId
                      (submission (postedNow clock) suffix body geocodeResult) (jobs w) with
              | (Ok (mkUpsert (Some job) _), jobs') =>
                  (Success (mkPosted (Row.id job) (Row.title job) (Row.company job)
                              (Row.latitude job) (Row.longitude job)),
                   mkWorld limits' geocoder' jobs')
              | (Ok (mkUpsert None _), jobs') =>
                  (ServerError "Cannot read properties of undefined (reading 'id')",
                   mkWorld limits' geocoder' jobs')
              | (Throw e, jobs') => (ServerError e, mkWorld limits' geocoder' jobs')
              end
          end
    end.

End Employer.

From Stdlib Require Import Sorted.

(** ** Vocabulary of the further properties *)

Module Props.
Import JS Jobs Redis Search.

(** A member of the comma-separated [types] parameter, trimmed. *)
Definition typeNames (params : SearchParams) : list string :=
  map trim (Geocode.splitComma (default EmptyString (types params)) EmptyString).

(** The row has one of the employment types the request asks for. *)
Definition typeRequested (params : SearchParams) (j : Job) : Prop :=
  if truthy (types params)
  then ∃ t, employmentTypeName t ∈ typeNames params ∧ Row.employmentType j = Some t
  else ∀ t, type params = Some t → Row.employmentType j = Some t.

(** The pattern of a substring match: the term in lower case between
    two wildcards. *)
Definition containing (term : option string) : string :=
  "%" ++ toLowerCase (default EmptyString term) ++ "%".

(** The row lies in the bounding box of the request. *)
Definition inBbox `{Platform} (params : SearchParams) (j : Job) : Prop :=
  let b := parseBbox (bbox params) in
  ST_Intersects_Envelope (Row.locationPoint j)
    (minLon b) (minLat b) (maxLon b) (maxLat b) = true.

(** The row passes every optional filter the request carries. *)
Definition passesFilters `{Platform} (now : Z) (params : SearchParams) (j : Job) : Prop :=
  (truthy (q params) = true →
     LIKE (LOWER (Row.title j)) (containing (q params)) = true
     ∨ LIKE (LOWER (Row.description j)) (containing (q params)) = true) ∧
  (truthy (company params) = true →
     LIKE (LOWER (Row.company j)) (containing (company params)) = true) ∧
  (∀ m, minPay params = Some m → m ≠ 0 →
     (∃ v, Row.payMax j = Some v ∧ m <= v) ∨ (∃ v, Row.payMin j = Some v ∧ m <= v)) ∧
  (∀ n, maxAgeDays params = Some n → n ≠ 0 →
     daysBefore now n <= Row.postedAt j) ∧
  typeRequested params j.

(** The row is what the request asks for: in the box, through the
    filters, approved and with a street. *)
Definition qualifies `{Platform} (now : Z) (params : SearchParams) (j : Job) : Prop :=
  inBbox params j ∧ passesFilters now params j ∧
  Row.status j = APPROVED ∧ truthy (Row.street j) = true.

(** Newest first. *)
Definition newestFirst (rows : list Job) : Prop :=
  StronglySorted (fun a b => Row.postedAt b <= Row.postedAt a) rows.

(** *** The jobs table *)

(** The identity of a posting. *)
Definition keyOf (j : Job) : JobSource * string := (Row.source j, Row.sourceId j).

(** The unique index of the jobs table on (source, sourceId). *)
Definition uniqueKeys (db : Table) : Prop := NoDup (map keyOf db).

(** The status a new row gets when the input carries none. *)
Definition initialStatus (source : JobSource) : JobStatus :=
  match source with
  | MANUAL => PENDING
  | _ => APPROVED
  end.

End Props.
(** ** Further scenarios *)

Module Cases.
Import JS Jobs Redis Search.

(** Full-time and part-time postings in the Phoenix area paying 60000
    or more, by a list of types. *)
Definition wellPaid : SearchParams :=
  mkParams "-113,33,-111,34" None None (Some 60000) None None
    (Some "FULL_TIME, PART_TIME") 200.

(** A list of types with a member that is no employment type. *)
Definition misspelt : SearchParams :=
  mkParams "-113,33,-111,34" None None None None None (Some "FULL_TIME,freelance") 200.

(** *** Mapbox on a bad day *)

Import Geocode.

(** The city lookup is rejected; the full query is answered. *)
Definition noBias (n : nat) (req : request) : response :=
  match req with
  | PlaceLookup _ => Rejected
  | ForwardLookup _ _ None =>
      Http true (Some [Scenario.featureAt (-112.0625)%float 33.4375%float
                         "address" "N Central Ave"])
  | _ => Http false None
  end.

Definition degraded : Env := mkEnv (Some "pk.test") noBias true true.

(** No token; the service would answer. *)
Definition unconfigured : Env := mkEnv None Scenario.phoenix true true.

(** A coordinate with a cafe, an address and the city around it. *)
Definition cafe : Feature :=
  mkFeature (Some ((-112.0625)%float, 33.4375%float)) (Some ["poi"]) (Some "Cartel Coffee")
    (Some "123 N Central Ave") (Some "Cartel Coffee")
    (Some [mkContext (Some "place.77") (Some "Phoenix") None;
           mkContext (Some "region.4") (Some "Arizona") (Some "US-AZ");
           mkContext (Some "postcode.9") (Some "85004") None]).

Definition downtown (n : nat) (req : request) : response :=
  match req with
  | ReverseLookup _ _ =>
      Http true (Some [Scenario.featureAt (-112.0)%float 33.5%float "place" "Phoenix";
                       Scenario.featureAt (-112.0625)%float 33.4375%float
                         "address" "N Central Ave";
                       cafe])
  | _ => Rejected
  end.

Definition mapped : Env := mkEnv (Some "pk.test") downtown true true.

End Cases.

(** ** Vocabulary of the route properties *)

Module Lifecycle.
Import JS Jobs Search Detail Employer.

(** A row with this id is among [rows]. *)
Definition listed (id : string) (rows : list Job) : Prop := id ∈ map Row.id rows.

(** A row matches a suggestion query when the column holds the term. *)
Definition suggestible `{Platform} (q : string) (type : option string) (j : Job) : Prop :=
  Row.status j = APPROVED
  ∧ LIKE (LOWER (suggestionColumn type j)) ("%" ++ toLowerCase q ++ "%") = true.

(** The limiter asked for one address at each of [times] in turn. *)
Fixpoint checks (times : list Z) (ip : string) (store : gmap string Limit)
  : list Check * gmap string Limit :=
  match times with
  | [] => ([], store)
  | t :: rest =>
      let (c, store1) := checkRateLimit t ip store in
      let (cs, store2) := checks rest ip store1 in
      (c :: cs, store2)
  end.

Definition isSuccess (reply : PostReply) : bool :=
  match reply with
  | Success _ => true
  | _ => false
  end.

(** The replies the route gives before it geocodes. *)
Definition turnedAway (reply : PostReply) : bool :=
  match reply with
  | TooManyRequests _ | ValidationError | CaptchaRequired => true
  | _ => false
  end.

(** The address the route geocodes for a body. *)
Definition addressOf (body : Post) : Geocode.GeocodeAddress :=
  Geocode.mkAddress (Some (Employer.street body)) (Some (Employer.city body))
    (Some (Employer.state body)) (Some (Employer.postalCode body))
    (Some (Employer.country body)).

End Lifecycle.

(** ** Scenarios of the routes *)

Module Desk.
Import JS Jobs Employer.

(** A submission of the employer form. *)
Definition coffeeCart : Post :=
  mkPost "Cartel Coffee" "Cart Barista" "Espresso cart at the farmers market"
    (Some PART_TIME) (Some 31200) None "https://example.com/cart"
    "123 N Central Ave" "Phoenix" "AZ" "85004" "US" (Some "captcha-token").

(** The same form sent without the captcha token. *)
Definition noCaptcha : Post :=
  mkPost "Cartel Coffee" "Cart Barista" "Espresso cart at the farmers market"
    (Some PART_TIME) (Some 31200) None "https://example.com/cart"
    "123 N Central Ave" "Phoenix" "AZ" "85004" "US" None.

Definition opening : World := mkWorld ∅ Scenario.fresh Scenario.board.

Definition morning : Clock :=
  mkClock 1700600000000 1700600000001 1700600000002 1700600000003.

(** An address that has used its five submissions of the hour. *)
Definition exhausted : gmap string Limit :=
  {[ "203.0.113.7" := mkLimit 5 1700600900000 ]}.

(** One address with a window that is over, one with a live window. *)
Definition mixed : gmap string Limit :=
  <[ "198.51.100.2" := mkLimit 3 1700500000000 ]>
    {[ "203.0.113.7" := mkLimit 2 1700600900000 ]}.

(** Byte order, as the "C" collation compares text. *)
Fixpoint byteOrder (a b : string) : bool :=
  match a, b with
  | EmptyString, EmptyString => false
  | EmptyString, String _ _ => true
  | String _ _, EmptyString => false
  | String x a', String y b' =>
      (code x <? code y)%nat || ((code x =? code y)%nat && byteOrder a' b')
  end.

End Desk.

(** *** Properties of the salary parsers *)

Module SalaryFacts.
Import JS Salary Spec.

Lemma Math_min_ints (ns : list Z) (n : Z) :
  Math_min (Int n) (map Int ns) = Int (fold_left Z.min ns n).
Proof.
  unfold Math_min. revert n.
  induction ns as [|m ns IH]; intros n; simpl; [reflexivity|apply IH].
Qed.

Lemma Math_max_ints (ns : list Z) (n : Z) :
  Math_max (Int n) (map Int ns) = Int (fold_left Z.max ns n).
Proof.
  unfold Math_max. revert n.
  induction ns as [|m ns IH]; intros n; simpl; [reflexivity|apply IH].
Qed.

Lemma fold_min_is_min (ns : list Z) (n : Z) :
  is_min (fold_left Z.min ns n) (n :: ns).
Proof.
  revert n. induction ns as [|m ns IH]; intros n; simpl.
  - split; [left|repeat constructor; lia].
  - destruct (IH (Z.min n m)) as [Hin Hall].
    apply Forall_cons in Hall as [Hhd Htl]. split.
    + apply elem_of_cons in Hin as [Heq|Hin].
      * rewrite Heq. destruct (Z.min_spec n m) as [[_ ->]|[_ ->]].
        -- left.
        -- right; left.
      * right; right; exact Hin.
    + repeat (apply Forall_cons; split); [lia|lia|exact Htl].
Qed.

Lemma fold_max_is_max (ns : list Z) (n : Z) :
  is_max (fold_left Z.max ns n) (n :: ns).
Proof.
  revert n. induction ns as [|m ns IH]; intros n; simpl.
  - split; [left|repeat constructor; lia].
  - destruct (IH (Z.max n m)) as [Hin Hall].
    apply Forall_cons in Hall as [Hhd Htl]. split.
    + apply elem_of_cons in Hin as [Heq|Hin].
      * rewrite Heq. destruct (Z.max_spec n m) as [[_ ->]|[_ ->]].
        -- right; left.
        -- left.
      * right; right; exact Hin.
    + repeat (apply Forall_cons; split); [lia|lia|exact Htl].
Qed.



Lemma is_min_le_max (mn mx : Z) (ns : list Z) :
  is_min mn ns → is_max mx ns → mn <= mx.
Proof.
  intros [Hin _] [_ Hall]. rewrite Forall_forall in Hall. auto.
Qed.

Lemma inClass_not_dollar (c : ascii) :
  inClass c = true → Ascii.eqb c "$"%char = false.
Proof.
  destruct (Ascii.eqb_spec c "$"%char) as [->|]; [|reflexivity].
  vm_compute. discriminate.
Qed.

Lemma dropDollarCommas_snoc (r : string) (c : ascii) :
  dropDollarCommas (snoc r c) = (dropDollarCommas r ++ dropDollarCommas (String c EmptyString))%string.
Proof.
  unfold snoc. induction r as [|d r IH]; simpl; [reflexivity|].
  rewrite IH. destruct (Ascii.eqb d "$" || Ascii.eqb d ","); reflexivity.
Qed.

Lemma dropCommas_snoc (r : string) (c : ascii) :
  dropCommas (snoc r c) = (dropCommas r ++ dropCommas (String c EmptyString))%string.
Proof.
  unfold snoc. induction r as [|d r IH]; simpl; [reflexivity|].
  rewrite IH. destruct (Ascii.eqb d ","); reflexivity.
Qed.

Lemma drop_single (c : ascii) :
  inClass c = true →
  dropDollarCommas (String c EmptyString) = dropCommas (String c EmptyString).
Proof.
  intros Hc. simpl. rewrite (inClass_not_dollar c Hc). reflexivity.
Qed.

Lemma matchers_agree (s : string) :
  ∀ st cur, agree st cur →
    map dropDollarCommas (matchDollarRuns s st) = map dropCommas (matchRuns s cur).
Proof.
  induction s as [|c s IH]; intros st cur Hag.
  - destruct st, cur; simpl in *; try contradiction; try reflexivity.
    rewrite Hag. reflexivity.
  - simpl. destruct (inClass c) eqn:Hc.
    + destruct st, cur; simpl in Hag; try contradiction; apply IH; simpl.
      * apply (drop_single c Hc).
      * rewrite (inClass_not_dollar c Hc). reflexivity.
      * rewrite dropDollarCommas_snoc, dropCommas_snoc, Hag, (drop_single c Hc).
        reflexivity.
    + destruct st, cur; simpl in Hag; try contradiction; simpl;
        try (apply IH; destruct (Ascii.eqb c "$"); exact I).
      rewrite Hag. f_equal. apply IH. destruct (Ascii.eqb c "$"); exact I.
Qed.

(** The Indeed adapter reads the same numbers as the Arizona adapter
    and drops the NaN among them. *)
Lemma indeedAmounts_arizona (text : string) :
  indeedAmounts text = List.filter (fun n => negb (isNaN n)) (arizonaNumbers text).
Proof.
  unfold indeedAmounts, arizonaNumbers. f_equal.
  rewrite <- (map_map dropDollarCommas parseInt), <- (map_map dropCommas parseInt).
  f_equal. apply matchers_agree. exact I.
Qed.


(** A text without digit or comma has no token. *)
Lemma matchRuns_none (s : string) :
  (∀ c, c ∈ list_ascii_of_string s → inClass c = false) →
  matchRuns s None = [].
Proof.
  induction s as [|c s IH]; intros Hno; simpl; [reflexivity|].
  rewrite (Hno c) by (simpl; left). apply IH.
  intros d Hd. apply Hno. simpl. right. exact Hd.
Qed.

Lemma parseSalaryArizona_ints (text : string) (n : Z) (rest : list Z) :
  arizonaNumbers text = map Int (n :: rest) →
  parseSalaryArizona (Some text) =
    let mn := fold_left Z.min rest n in
    let mx := fold_left Z.max rest n in
    if negb (mx =? 0) && (mx <? 100)
    then mkPay (if negb (mn =? 0) then Some (Int (mn * 2080)) else None)
               (Some (Int (mx * 2080)))
    else mkPay (Some (Int mn)) (Some (Int mx)).
Proof.
  intros Hns. unfold parseSalaryArizona.
  destruct text as [|c text]; [discriminate Hns|].
  rewrite Hns. cbn [map].
  destruct rest as [|m rest]; [reflexivity|].
  change (Int m :: map Int rest) with (map Int (m :: rest)).
  rewrite Math_min_ints, Math_max_ints. reflexivity.
Qed.


Lemma parseSalary_no_token (text : string) :
  arizonaNumbers text = [] →
  parseSalaryArizona (Some text) = absent ∧ parseSalaryIndeed (Some text) = absent.
Proof.
  intros Hns. unfold parseSalaryArizona, parseSalaryIndeed.
  rewrite indeedAmounts_arizona, Hns. destruct text; split; reflexivity.
Qed.

(** Evaluations of the Arizona parser where it leaves the rule of the
    specification: a minimum of 0 is dropped by the conversion, and a
    run of commas without a digit is read as NaN. *)
Example parseSalaryArizona_zero_minimum :
  parseSalaryArizona (Some "0 - 20") = mkPay None (Some (Int 41600)).
Proof. reflexivity. Qed.

Example parseSalaryArizona_comma_only :
  parseSalaryArizona (Some "Competitive, negotiable") = mkPay (Some NaN) (Some NaN).
Proof. reflexivity. Qed.

Example parseSalaryIndeed_comma_only :
  parseSalaryIndeed (Some "Competitive, negotiable") = absent.
Proof. reflexivity. Qed.




End SalaryFacts.

(** *** Properties of the geocode resolver *)

Module GeocodeFacts.
Import JS Geocode Spec.

(** **** Normalisation of a component *)

Lemma lowerChar_sameLetter (c d : ascii) :
  sameLetter c d → lowerChar c = lowerChar d.
Proof.
  unfold sameLetter, isUpper, lowerChar, code.
  intros [->|[[Hup Hd]|[Hup Hc]]]; [reflexivity| |].
  - assert (E : d = ascii_of_nat (nat_of_ascii c + 32)).
    { rewrite <- Hd. symmetry. apply ascii_nat_embedding. }
    replace ((65 <=? nat_of_ascii c)%nat && (nat_of_ascii c <=? 90)%nat) with true
      by (symmetry; apply andb_true_iff; split; apply Nat.leb_le; lia).
    replace ((65 <=? nat_of_ascii d)%nat && (nat_of_ascii d <=? 90)%nat) with false
      by (symmetry; apply andb_false_iff; right; apply Nat.leb_gt; lia).
    symmetry. exact E.
  - assert (E : c = ascii_of_nat (nat_of_ascii d + 32)).
    { rewrite <- Hc. symmetry. apply ascii_nat_embedding. }
    replace ((65 <=? nat_of_ascii d)%nat && (nat_of_ascii d <=? 90)%nat) with true
      by (symmetry; apply andb_true_iff; split; apply Nat.leb_le; lia).
    replace ((65 <=? nat_of_ascii c)%nat && (nat_of_ascii c <=? 90)%nat) with false
      by (symmetry; apply andb_false_iff; right; apply Nat.leb_gt; lia).
    exact E.
Qed.

Lemma toLowerCase_sameLetters (s t : string) :
  sameLetters s t → toLowerCase s = toLowerCase t.
Proof.
  induction 1 as [|c d s t Hcd _ IH]; simpl; [reflexivity|].
  rewrite (lowerChar_sameLetter c d Hcd), IH. reflexivity.
Qed.

Lemma toLowerCase_app (s t : string) :
  toLowerCase (s ++ t) = (toLowerCase s ++ toLowerCase t)%string.
Proof. induction s as [|c s IH]; simpl; [reflexivity|now rewrite IH]. Qed.

Lemma lowerChar_whiteSpace (c : ascii) :
  isWhiteSpace c = true → lowerChar c = c.
Proof.
  unfold isWhiteSpace, lowerChar. intros Hws.
  destruct (65 <=? code c)%nat eqn:Hlo; [|reflexivity].
  apply Nat.leb_le in Hlo. exfalso.
  revert Hws Hlo. generalize (code c). intros n Hws Hlo.
  do 33 (destruct n as [|n]; [first [discriminate Hws | lia]|]).
  discriminate Hws.
Qed.

Lemma toLowerCase_blank (s : string) :
  blank s = true → toLowerCase s = s.
Proof.
  induction s as [|c s IH]; simpl; [reflexivity|].
  intros [Hc Hs]%andb_true_iff.
  rewrite (lowerChar_whiteSpace c Hc), (IH Hs). reflexivity.
Qed.

Lemma trimStart_blank_app (l s : string) :
  blank l = true → trimStart (l ++ s) = trimStart s.
Proof.
  induction l as [|c l IH]; simpl; [reflexivity|].
  intros [Hc Hl]%andb_true_iff. rewrite Hc. apply IH, Hl.
Qed.

Lemma trimEnd_blank (r : string) : blank r = true → trimEnd r = EmptyString.
Proof.
  induction r as [|c r IH]; simpl; [reflexivity|].
  intros [Hc Hr]%andb_true_iff. rewrite (IH Hr), Hc. reflexivity.
Qed.

Lemma trimEnd_app_blank (s r : string) :
  blank r = true → trimEnd (s ++ r) = trimEnd s.
Proof.
  intros Hr. induction s as [|c s IH]; simpl.
  - apply trimEnd_blank, Hr.
  - rewrite IH. reflexivity.
Qed.

Lemma trimStart_blank (s : string) : blank s = true → trimStart s = EmptyString.
Proof.
  induction s as [|c s IH]; simpl; [reflexivity|].
  intros [Hc Hs]%andb_true_iff. rewrite Hc. apply IH, Hs.
Qed.

Lemma blank_app (s r : string) :
  blank s = true → blank r = true → blank (s ++ r) = true.
Proof.
  induction s as [|c s IH]; simpl; [auto|].
  intros [Hc Hs]%andb_true_iff Hr. rewrite Hc. simpl. auto.
Qed.

(** Either [s] is blank, or trimming its start commutes with appending. *)
Lemma trimStart_app (s r : string) :
  blank s = true ∨ trimStart (s ++ r) = (trimStart s ++ r)%string.
Proof.
  induction s as [|c s IH]; simpl.
  - left. reflexivity.
  - destruct (isWhiteSpace c); simpl; [exact IH|].
    right. reflexivity.
Qed.

Lemma trim_padded (s core : string) : padded s core → trim s = trim core.
Proof.
  intros (l & r & Hl & Hr & ->). unfold trim.
  rewrite (trimStart_blank_app l _ Hl).
  destruct (trimStart_app core r) as [Hb | ->].
  - rewrite (trimStart_blank _ (blank_app _ _ Hb Hr)), (trimStart_blank _ Hb).
    reflexivity.
  - apply trimEnd_app_blank, Hr.
Qed.

Lemma toLowerCase_padded (s core : string) :
  padded s core → padded (toLowerCase s) (toLowerCase core).
Proof.
  intros (l & r & Hl & Hr & ->). exists l, r.
  rewrite !toLowerCase_app, (toLowerCase_blank l Hl), (toLowerCase_blank r Hr).
  auto.
Qed.

(** Variants have the same normal form. *)
Lemma normal_form_variant (s t : string) :
  variant s t → trim (toLowerCase s) = trim (toLowerCase t).
Proof.
  intros (cs & ct & Hs & Ht & Hsame).
  rewrite (trim_padded _ _ (toLowerCase_padded _ _ Hs)).
  rewrite (trim_padded _ _ (toLowerCase_padded _ _ Ht)).
  rewrite (toLowerCase_sameLetters _ _ Hsame). reflexivity.
Qed.

(** **** The cache key *)

Lemma normalParts_cons (x y : option string) (xs ys : list (option string)) :
  variantField x y → truthy x = truthy y →
  normalParts xs = normalParts ys →
  normalParts (x :: xs) = normalParts (y :: ys).
Proof.
  unfold normalParts, variantField. intros Hvar Hpres Htail.
  destruct x as [[|c s]|], y as [[|d t]|];
    cbn [filterTruthy map truthy default from_option id] in *;
    try discriminate Hpres; try exact Htail.
  rewrite (normal_form_variant _ _ Hvar), Htail. reflexivity.
Qed.

Lemma truthy_orElse (o : option string) : truthy (Some (orElse o "US")) = true.
Proof. destruct o as [[|c s]|]; reflexivity. Qed.

Lemma normalizeAddressKey_variant (a b : GeocodeAddress) :
  variantAddress a b → samePresence a b →
  normalizeAddressKey a = normalizeAddressKey b.
Proof.
  intros (Hst & Hci & Hsa & Hpc & Hco) (Pst & Pci & Psa & Ppc).
  unfold normalizeAddressKey. f_equal.
  change (normalParts [street a; city a; state a; postalCode a;
                       Some (orElse (country a) "US")]
          = normalParts [street b; city b; state b; postalCode b;
                         Some (orElse (country b) "US")]).
  repeat (apply normalParts_cons; [assumption|assumption|]).
  apply normalParts_cons; [exact Hco| |reflexivity].
  rewrite !truthy_orElse. reflexivity.
Qed.

(** **** Memoisation *)

(** Once a forward call has returned [r] with a writable cache, a call
    for any address with the same key answers [r] from the cache and
    leaves the state, hence the list of requests sent, as it is. *)
Lemma geocodeAddress_memo (env1 env2 : Env) (st st' : State)
    (a b : GeocodeAddress) (r : GeocodeResult) :
  normalizeAddressKey a = normalizeAddressKey b →
  cacheWritable env1 = true → cacheReadable env2 = true →
  geocodeAddress env1 st a = (Ok r, st') →
  geocodeCache st' !! normalizeAddressKey b = Some r ∧
  geocodeAddress env2 st' b = (Ok r, st').
Proof.
  intros Hkey Hw Hr Hfirst. unfold geocodeAddress in *.
  rewrite <- Hkey. unfold cacheLookup, cacheStore in *. rewrite Hr, Hw in *.
  destruct (cacheReadable env1).
  - destruct (geocodeCache st !! normalizeAddressKey a) as [cached|] eqn:Hhit.
    + injection Hfirst as <- <-. destruct cached as [la lo]. simpl.
      rewrite Hhit. split; reflexivity.
    + destruct (geocodeWithMapbox env1 (sent st) a) as [[r0|e] log];
        [|discriminate Hfirst].
      injection Hfirst as <- <-. simpl. rewrite lookup_insert_eq.
      destruct r0; split; reflexivity.
  - destruct (geocodeWithMapbox env1 (sent st) a) as [[r0|e] log];
      [|discriminate Hfirst].
    injection Hfirst as <- <-. simpl. rewrite lookup_insert_eq.
    destruct r0; split; reflexivity.
Qed.

(** C7. The forward geocoder memoises by normalised address key: after
    a call that returned the coordinate [r] with a working cache, a
    second call for an address with the same key finds [r] under that
    key, returns exactly [r], and sends no request to the external
    service. *)
Theorem C7_forward_memoizes (env1 env2 : Env) (st st' : State)
    (a b : GeocodeAddress) (r : GeocodeResult) :
  normalizeAddressKey a = normalizeAddressKey b →
  cacheWritable env1 = true → cacheReadable env2 = true →
  geocodeAddress env1 st a = (Ok r, st') →
  geocodeCache st' !! normalizeAddressKey b = Some r ∧
  fst (geocodeAddress env2 st' b) = Ok r ∧
  sent (snd (geocodeAddress env2 st' b)) = sent st'.
Proof.
  intros Hkey Hw Hr Hfirst.
  destruct (geocodeAddress_memo env1 env2 st st' a b r Hkey Hw Hr Hfirst)
    as [Hentry ->].
  split; [exact Hentry|]. split; reflexivity.
Qed.

(** The scenario of the specification: "123 N Central Ave, Phoenix, AZ,
    85004, US" is resolved with two requests (city bias, full query);
    the second resolution, even without token or network, returns the
    same coordinate and sends nothing. *)
Lemma C7_forward_memoizes_witness :
  List.length (sent Scenario.afterFirst) = 2%nat ∧
  fst (geocodeAddress Scenario.offline Scenario.afterFirst Scenario.centralAve)
  = Ok (mkCoord 33.4375%float (-112.0625)%float) ∧
  sent (snd (geocodeAddress Scenario.offline Scenario.afterFirst Scenario.centralAve))
  = sent Scenario.afterFirst.
Proof.
  split; [vm_compute; reflexivity|].
  apply (C7_forward_memoizes Scenario.online Scenario.offline Scenario.fresh
           Scenario.afterFirst Scenario.centralAve Scenario.centralAve
           (mkCoord 33.4375%float (-112.0625)%float)).
  - reflexivity.
  - reflexivity.
  - reflexivity.
  - vm_compute. reflexivity.
Defined.

Ltac same_letters :=
  repeat first
    [ apply sameLetters_nil
    | apply sameLetters_cons;
      [ first [ left; reflexivity
              | right; left; split; [vm_compute; lia | reflexivity]
              | right; right; split; [vm_compute; lia | reflexivity] ] | ] ].

Ltac variant_of l cs r l' ct r' :=
  exists cs, ct; split; [|split];
  [ exists l, r; repeat split; reflexivity
  | exists l', r'; repeat split; reflexivity
  | same_letters ].

(** C10, as stated, fails when a component is white space in one
    address and empty in the other: the two streets differ in white
    space only, yet the first key starts with a separator. *)
Lemma C10_blank_component_changes_key :
  variantAddress Scenario.blankStreet Scenario.emptyStreet ∧
  normalizeAddressKey Scenario.blankStreet = ", phoenix, az, us" ∧
  normalizeAddressKey Scenario.emptyStreet = "phoenix, az, us" ∧
  normalizeAddressKey Scenario.blankStreet ≠ normalizeAddressKey Scenario.emptyStreet.
Proof.
  split; [|split; [reflexivity|split; [reflexivity|discriminate]]].
  unfold variantAddress, variantField, Scenario.blankStreet, Scenario.emptyStreet.
  cbn [street city state postalCode country default from_option id orElse].
  repeat split.
  - variant_of " " EmptyString EmptyString EmptyString EmptyString EmptyString.
  - variant_of EmptyString "Phoenix" EmptyString EmptyString "Phoenix" EmptyString.
  - variant_of EmptyString "AZ" EmptyString EmptyString "AZ" EmptyString.
  - variant_of EmptyString EmptyString EmptyString EmptyString EmptyString EmptyString.
  - variant_of EmptyString "US" EmptyString EmptyString "US" EmptyString.
Qed.

(** C10 (amended). The cache key of the forward geocoder is insensitive
    to letter case, to leading and trailing white space and to the
    country being unset rather than US, for addresses in which the same
    components are empty or absent: two such addresses have the same
    key, and once one of them has been resolved with a working cache the
    other resolves to the identical coordinate from the cache, the state
    and the list of requests sent being left as they are. *)
Theorem C10_variant_addresses_share_entry (env1 env2 : Env) (st st' : State)
    (a b : GeocodeAddress) (r : GeocodeResult) :
  variantAddress a b → samePresence a b →
  normalizeAddressKey a = normalizeAddressKey b ∧
  (cacheWritable env1 = true → cacheReadable env2 = true →
   geocodeAddress env1 st a = (Ok r, st') →
   geocodeAddress env2 st' b = (Ok r, st')).
Proof.
  intros Hvar Hpres.
  assert (Hkey := normalizeAddressKey_variant a b Hvar Hpres).
  split; [exact Hkey|].
  intros Hw Hr Hfirst.
  apply (geocodeAddress_memo env1 env2 st st' a b r Hkey Hw Hr Hfirst).
Qed.

Lemma C10_variant_addresses_share_entry_witness :
  normalizeAddressKey Scenario.centralAveTyped = normalizeAddressKey Scenario.centralAve ∧
  geocodeAddress Scenario.offline Scenario.afterFirst Scenario.centralAveTyped
  = (Ok (mkCoord 33.4375%float (-112.0625)%float), Scenario.afterFirst).
Proof.
  assert (Hvar : variantAddress Scenario.centralAve Scenario.centralAveTyped).
  { unfold variantAddress, variantField, Scenario.centralAve, Scenario.centralAveTyped.
    cbn [street city state postalCode country default from_option id orElse].
    repeat split.
    - variant_of EmptyString "123 N Central Ave" EmptyString " " "123 n central AVE" EmptyString.
    - variant_of EmptyString "Phoenix" EmptyString EmptyString "PHOENIX" " ".
    - variant_of EmptyString "AZ" EmptyString EmptyString "az" EmptyString.
    - variant_of EmptyString "85004" EmptyString EmptyString "85004" EmptyString.
    - variant_of EmptyString "US" EmptyString EmptyString "US" EmptyString. }
  assert (Hpres : samePresence Scenario.centralAve Scenario.centralAveTyped).
  { repeat split. }
  destruct (C10_variant_addresses_share_entry Scenario.online Scenario.offline
              Scenario.fresh Scenario.afterFirst
              Scenario.centralAve Scenario.centralAveTyped
              (mkCoord 33.4375%float (-112.0625)%float) Hvar Hpres) as [Hkey Hmemo].
  split; [symmetry; exact Hkey|].
  apply Hmemo; [reflexivity|reflexivity|vm_compute; reflexivity].
Defined.

(** **** Reverse geocoding *)

(** The loop keeps a candidate whose score is the score to beat, and
    ends on a candidate no other one outranks. *)
Lemma selectLoop_best (fs : list Feature) :
  ∀ feature, 
    let best := selectLoop fs feature (precision feature) in
    best ∈ feature :: fs ∧
    (precision feature <= precision best)%nat ∧
    Forall (fun f => (precision f <= precision best)%nat) fs.
Proof.
  induction fs as [|f fs IH]; intros feature; cbn [selectLoop].
  - split; [left|]. split; [lia|constructor].
  - fold (precision f).
    destruct (Nat.ltb_spec (precision feature) (precision f)) as [Hlt|Hge].
    + destruct (IH f) as (Hin & Hle & Hall). cbv zeta in *.
      split; [right; exact Hin|]. split; [lia|].
      constructor; assumption.
    + destruct (IH feature) as (Hin & Hle & Hall). cbv zeta in *.
      split.
      { apply elem_of_cons in Hin as [->|Hin]; [left|right; right; exact Hin]. }
      split; [exact Hle|]. constructor; [lia|exact Hall].
Qed.

Lemma selectFeature_unfold (first : Feature) (rest : list Feature) :
  selectFeature first rest = selectLoop rest first (precision first).
Proof.
  unfold selectFeature. cbn [selectLoop]. fold (precision first).
  destruct (Nat.ltb_spec 0 (precision first)) as [_|Hz]; [reflexivity|].
  replace (precision first) with 0%nat by lia. reflexivity.
Qed.

Lemma selectFeature_best (first : Feature) (rest : list Feature) :
  selectFeature first rest ∈ first :: rest ∧
  Forall (fun f => (precision f <= precision (selectFeature first rest))%nat)
    (first :: rest).
Proof.
  rewrite selectFeature_unfold.
  destruct (selectLoop_best rest first) as (Hin & Hle & Hall).
  split; [exact Hin|]. constructor; assumption.
Qed.


Lemma precisionOf_other (ty : option string) :
  ty ≠ Some "poi" → ty ≠ Some "address" → ty ≠ Some "street" →
  precisionOf ty = 0%nat.
Proof.
  intros Hpoi Haddr Hstr.
  destruct (precisionOf ty) as [|[|[|[|n]]]] eqn:Hp; [reflexivity| | | |].
  - exfalso. apply Hstr. revert Hp. unfold precisionOf.
    repeat (case_match; try discriminate). subst. reflexivity.
  - exfalso. apply Haddr. revert Hp. unfold precisionOf.
    repeat (case_match; try discriminate). subst. reflexivity.
  - exfalso. apply Hpoi. revert Hp. unfold precisionOf.
    repeat (case_match; try discriminate). subst. reflexivity.
  - exfalso. revert Hp. unfold precisionOf.
    repeat (case_match; try discriminate).
Qed.



(** With imprecise results allowed the same lookup returns the city as
    the street. *)
Example reverseGeocode_allowImprecise :
  fst (reverseGeocode Scenario.online [] 33.5%float (-112.0)%float true)
  = Ok (Some (mkAddress (Some "Phoenix") None None None (Some "US"))).
Proof. reflexivity. Qed.

End GeocodeFacts.

(** *** Properties of the upsert engine *)

Module JobsFacts.
Import JS Jobs Spec.

Lemma filter_map_commute {A : Type} (p : A -> bool) (h : A -> A) (l : list A) :
  (∀ x, p (h x) = p x) →
  List.filter p (map h l) = map h (List.filter p l).
Proof.
  intros Hp. induction l as [|x l IH]; simpl; [reflexivity|].
  rewrite Hp, IH. destruct (p x); reflexivity.
Qed.

Lemma hasId_refl (j : Job) : hasId (Row.id j) j = true.
Proof. unfold hasId. apply String.eqb_refl. Qed.

Lemma selectById_fresh (i : string) (db : Table) :
  existsb (hasId i) db = false → selectById i db = [].
Proof.
  unfold selectById. induction db as [|x db IH]; simpl; [reflexivity|].
  intros [Hx Hdb]%orb_false_iff. rewrite Hx. apply IH, Hdb.
Qed.

Lemma updateWhereId_fresh (i : string) (f : Job -> Job) (db : Table) :
  existsb (hasId i) db = false → updateWhereId i f db = db.
Proof.
  unfold updateWhereId. induction db as [|x db IH]; simpl; [reflexivity|].
  intros [Hx Hdb]%orb_false_iff. rewrite Hx, (IH Hdb). reflexivity.
Qed.

Lemma existsb_hasId_false (i : string) (db : Table) :
  i ∉ map Row.id db → existsb (hasId i) db = false.
Proof.
  induction db as [|x db IH]; simpl; [reflexivity|].
  intros Hnot. apply not_elem_of_cons in Hnot as [Hne Hnot].
  unfold hasId at 1. rewrite (proj2 (String.eqb_neq _ _)) by congruence.
  apply IH, Hnot.
Qed.

(** Under the primary key a row is the only one with its id. *)
Lemma selectById_unique (db : Table) (x : Job) :
  uniqueIds db → x ∈ db → selectById (Row.id x) db = [x].
Proof.
  unfold uniqueIds, selectById.
  induction db as [|y db IH]; intros Hnd Hin; [inversion Hin|].
  simpl in Hnd. apply NoDup_cons in Hnd as [Hy Hnd]. simpl.
  apply elem_of_cons in Hin as [->|Hin].
  - rewrite hasId_refl. f_equal.
    apply (selectById_fresh _ _ (existsb_hasId_false _ _ Hy)).
  - assert (Hne : Row.id y ≠ Row.id x).
    { intros E. apply Hy. rewrite E. apply list_elem_of_fmap_2, Hin. }
    unfold hasId at 1. rewrite (proj2 (String.eqb_neq _ _) Hne).
    apply IH; assumption.
Qed.

Lemma stored_Some (source : JobSource) (sourceId : string) (db : Table) (old : Job) :
  stored source sourceId db = Some old →
  old ∈ db ∧ ∃ rest, List.filter (hasKey source sourceId) db = old :: rest.
Proof.
  unfold stored. intros Hst.
  destruct (List.filter (hasKey source sourceId) db) as [|x rest] eqn:Hf;
    [discriminate Hst|].
  injection Hst as ->. split; [|exists rest; reflexivity].
  apply list_elem_of_In. apply (filter_In (hasKey source sourceId) old db).
  rewrite Hf. left. reflexivity.
Qed.

Lemma updated_id now data existing j : Row.id (updated now data existing j) = Row.id j.
Proof. unfold updated. destruct (coordinatesChanged existing data); reflexivity. Qed.

Lemma updated_key now data existing source sourceId j :
  hasKey source sourceId (updated now data existing j) = hasKey source sourceId j.
Proof. unfold updated. destruct (coordinatesChanged existing data); reflexivity. Qed.

Lemma updateWhereId_twice (i : string) (f g : Job -> Job) (db : Table) :
  (∀ j, Row.id (f j) = Row.id j) →
  updateWhereId i g (updateWhereId i f db)
  = updateWhereId i (fun j => g (f j)) db.
Proof.
  intros Hid. unfold updateWhereId. rewrite map_map.
  apply map_ext. intros j. unfold hasId.
  destruct (String.eqb (Row.id j) i) eqn:E; [|rewrite E; reflexivity].
  rewrite Hid, E. reflexivity.
Qed.

(** The table after the update path. *)
Lemma upsertJob_update (now : Z) (jobId : string) (data : JobInput) (db : Table)
    (old : Job) :
  sourceIdMissing data = false →
  stored (Input.source data) (Input.sourceId data) db = Some old →
  let db' := updateWhereId (Row.id old) (updated now data old) db in
  upsertJob now jobId data db
  = (Ok (mkUpsert (head (selectById (Row.id old) db')) false), db').
Proof.
  intros Hvalid Hst. destruct (stored_Some _ _ _ _ Hst) as [_ [rest Hf]].
  unfold upsertJob. rewrite Hvalid, Hf. cbv zeta. unfold updated.
  destruct (coordinatesChanged old data); [|reflexivity].
  unfold setJobLocationPoint. rewrite updateWhereId_twice by reflexivity.
  reflexivity.
Qed.

Lemma selectById_updateWhereId (i : string) (f : Job -> Job) (db : Table) :
  (∀ j, Row.id (f j) = Row.id j) →
  selectById i (updateWhereId i f db) = map f (selectById i db).
Proof.
  intros Hid. unfold selectById, updateWhereId.
  induction db as [|x db IH]; simpl; [reflexivity|].
  destruct (hasId i x) eqn:E.
  - unfold hasId in *. rewrite Hid, E. simpl. rewrite IH. reflexivity.
  - rewrite E. exact IH.
Qed.


Lemma stored_updateWhereId (source : JobSource) (sourceId : string)
    (f : Job -> Job) (db : Table) (old : Job) :
  (∀ j, hasKey source sourceId (f j) = hasKey source sourceId j) →
  stored source sourceId db = Some old →
  stored source sourceId (updateWhereId (Row.id old) f db) = Some (f old).
Proof.
  intros Hkey Hst. destruct (stored_Some _ _ _ _ Hst) as [_ [rest Hf]].
  unfold stored, updateWhereId.
  rewrite filter_map_commute.
  - rewrite Hf. simpl. rewrite hasId_refl. reflexivity.
  - intros x. destruct (hasId (Row.id old) x); [apply Hkey|reflexivity].
Qed.

(** The update path under the primary key: the row found is replaced
    by its update, which is what the caller gets back. *)
Lemma upsertJob_existing (now : Z) (jobId : string) (data : JobInput) (db : Table)
    (old : Job) :
  uniqueIds db → sourceIdMissing data = false →
  stored (Input.source data) (Input.sourceId data) db = Some old →
  let new := updated now data old old in
  let db' := updateWhereId (Row.id old) (updated now data old) db in
  upsertJob now jobId data db = (Ok (mkUpsert (Some new) false), db') ∧
  stored (Input.source data) (Input.sourceId data) db' = Some new.
Proof.
  intros Huniq Hvalid Hst. cbv zeta. split.
  - rewrite (upsertJob_update now jobId data db old Hvalid Hst). cbv zeta.
    rewrite selectById_updateWhereId by apply updated_id.
    rewrite (selectById_unique db old Huniq (proj1 (stored_Some _ _ _ _ Hst))).
    reflexivity.
  - apply stored_updateWhereId; [|exact Hst].
    intros j. apply updated_key.
Qed.



(** **** The insert path *)

Lemma selectById_app (i : string) (a b : Table) :
  selectById i (a ++ b)%list = (selectById i a ++ selectById i b)%list.
Proof. apply List.filter_app. Qed.

Lemma stored_None (source : JobSource) (sourceId : string) (db : Table) :
  stored source sourceId db = None →
  List.filter (hasKey source sourceId) db = [].
Proof.
  unfold stored. destruct (List.filter _ db); [reflexivity|discriminate].
Qed.

Lemma hasKey_newRow (now : Z) (jobId : string) (st : JobStatus) (data : JobInput) :
  hasKey (Input.source data) (Input.sourceId data) (newRow now jobId st data) = true.
Proof.
  unfold hasKey. simpl. rewrite bool_decide_eq_true_2 by reflexivity.
  apply String.eqb_refl.
Qed.

Lemma upsertJob_insert (now : Z) (jobId : string) (data : JobInput) (db : Table) :
  sourceIdMissing data = false →
  stored (Input.source data) (Input.sourceId data) db = None →
  existsb (hasId jobId) db = false →
  let row := newRow now jobId (defaultStatus data) data in
  upsertJob now jobId data db = (Ok (mkUpsert (Some row) true), (db ++ [row])%list) ∧
  stored (Input.source data) (Input.sourceId data) (db ++ [row])%list = Some row.
Proof.
  intros Hvalid Habsent Hfresh. cbv zeta. split.
  - unfold upsertJob. rewrite Hvalid, (stored_None _ _ _ Habsent), Hfresh.
    rewrite selectById_app, (selectById_fresh _ _ Hfresh).
    unfold selectById, hasId. simpl. rewrite String.eqb_refl. reflexivity.
  - unfold stored. rewrite List.filter_app, (stored_None _ _ _ Habsent).
    simpl. rewrite hasKey_newRow. reflexivity.
Qed.

(** Updating a row just inserted from the same input changes its
    [updatedAt] only. *)
Lemma updated_newRow (now1 now2 : Z) (jobId : string) (data : JobInput) :
  let row := newRow now1 jobId (defaultStatus data) data in
  updated now2 data row row = withUpdatedAt now2 row.
Proof.
  cbv zeta. unfold updated, defaultStatus.
  destruct (coordinatesChanged _ data); destruct data as [? ? ? ? ? ? ? ? ? ? ? ? ? ? ? ? ? ? [s|]];
    reflexivity.
Qed.

(** C5. Upsert is idempotent: for an input with a sourceId and a key
    absent from the table, the first call inserts and returns created =
    true, the second call with the identical input returns created =
    false, and the row stored after the second call is the row stored
    after the first one in every field except updatedAt; the rest of
    the table is the same. *)
Theorem C5_upsert_idempotent (now1 now2 : Z) (id1 id2 : string) (data : JobInput)
    (db : Table) :
  sourceIdMissing data = false →
  stored (Input.source data) (Input.sourceId data) db = None →
  existsb (hasId id1) db = false →
  ∃ j1 j2,
    upsertJob now1 id1 data db = (Ok (mkUpsert (Some j1) true), (db ++ [j1])%list) ∧
    stored (Input.source data) (Input.sourceId data) (db ++ [j1])%list = Some j1 ∧
    upsertJob now2 id2 data (db ++ [j1])%list
    = (Ok (mkUpsert (Some j2) false), (db ++ [j2])%list) ∧
    stored (Input.source data) (Input.sourceId data) (db ++ [j2])%list = Some j2 ∧
    j2 = withUpdatedAt now2 j1.
Proof.
  intros Hvalid Habsent Hfresh.
  destruct (upsertJob_insert now1 id1 data db Hvalid Habsent Hfresh) as [Hfirst Hst1].
  cbv zeta in *.
  set (j1 := newRow now1 id1 (defaultStatus data) data) in *.
  assert (Hid : Row.id j1 = id1) by reflexivity.
  exists j1, (withUpdatedAt now2 j1).
  split; [exact Hfirst|]. split; [exact Hst1|].
  assert (Hdb2 : updateWhereId id1 (updated now2 data j1) (db ++ [j1])%list
                 = (db ++ [withUpdatedAt now2 j1])%list).
  { unfold updateWhereId. rewrite map_app.
    fold (updateWhereId id1 (updated now2 data j1) db).
    rewrite (updateWhereId_fresh _ _ _ Hfresh).
    cbn [map]. unfold hasId. rewrite Hid, String.eqb_refl.
    unfold j1 at 1 2. rewrite updated_newRow. reflexivity. }
  split; [|split; [|reflexivity]].
  - rewrite (upsertJob_update now2 id2 data _ j1 Hvalid Hst1). cbv zeta.
    rewrite Hid, Hdb2, selectById_app, (selectById_fresh _ _ Hfresh).
    unfold selectById, hasId. simpl. rewrite String.eqb_refl. reflexivity.
  - unfold stored. rewrite List.filter_app, (stored_None _ _ _ Habsent).
    cbn [List.filter app].
    change (hasKey (Input.source data) (Input.sourceId data) (withUpdatedAt now2 j1))
      with (hasKey (Input.source data) (Input.sourceId data) j1).
    unfold j1 at 1. rewrite hasKey_newRow. reflexivity.
Qed.

(** The barista posting upserted twice into the sample table without
    its row: created, then updated, and only updatedAt moves. *)
Lemma C5_upsert_idempotent_witness :
  ∃ j1 j2,
    upsertJob 1700600000000 "c3" Scenario.barista [Scenario.nurse]
    = (Ok (mkUpsert (Some j1) true), [Scenario.nurse; j1]) ∧
    upsertJob 1700700000000 "c4" Scenario.barista [Scenario.nurse; j1]
    = (Ok (mkUpsert (Some j2) false), [Scenario.nurse; j2]) ∧
    j2 = withUpdatedAt 1700700000000 j1.
Proof.
  destruct (C5_upsert_idempotent 1700600000000 1700700000000 "c3" "c4"
              Scenario.barista [Scenario.nurse])
    as (j1 & j2 & Hfirst & _ & Hsecond & _ & Hsame);
    [reflexivity|reflexivity|reflexivity|].
  exists j1, j2. split; [exact Hfirst|]. split; [exact Hsecond|exact Hsame].
Defined.

(** **** Totality *)

Lemma selectById_present (f : Job -> Job) (db : Table) (x : Job) :
  (∀ j, Row.id (f j) = Row.id j) → x ∈ db →
  ∃ j, head (selectById (Row.id x) (updateWhereId (Row.id x) f db)) = Some j.
Proof.
  intros Hid Hin. rewrite selectById_updateWhereId by exact Hid.
  unfold selectById.
  destruct (List.filter (hasId (Row.id x)) db) as [|y l] eqn:Hf.
  - exfalso. apply list_elem_of_In in Hin.
    assert (Hx : In x (List.filter (hasId (Row.id x)) db)).
    { apply filter_In. split; [exact Hin|apply hasId_refl]. }
    rewrite Hf in Hx. exact Hx.
  - exists (f y). reflexivity.
Qed.




End JobsFacts.

(** *** Properties of the search route *)

Module SearchFacts.
Import JS Jobs Redis Search Spec.

Section WithPlatform.
Context `{Platform}.

(** **** The WHERE clause *)

Lemma whereParts_fixed (now : Z) (params : SearchParams) (parts : list Condition) :
  whereParts now params = Ok parts →
  In approvedCondition parts ∧ In streetCondition parts.
Proof.
  unfold whereParts. destruct (typeCondition params) as [typeParts|e];
    [|discriminate].
  intros [= <-]. cbn [In]. rewrite !in_app_iff. cbn [In]. tauto.
Qed.

Lemma satisfies_visible (parts : list Condition) (j : Job) :
  In approvedCondition parts → In streetCondition parts →
  satisfies parts j = true → visible j.
Proof.
  unfold satisfies. intros Ha Hs Hall. rewrite forallb_forall in Hall.
  split.
  - apply (bool_decide_eq_true_1 _). exact (Hall _ Ha).
  - exact (Hall _ Hs).
Qed.

Lemma matching_visible (now : Z) (params : SearchParams) (db : Table) (all : list Job) :
  matching now params db = Ok all →
  ∀ j, In j all → In j db ∧ visible j.
Proof.
  unfold matching. destruct (whereParts now params) as [parts|e] eqn:Hw;
    [|discriminate].
  intros [= <-] j [Hin Hsat]%filter_In.
  destruct (whereParts_fixed _ _ _ Hw) as [Ha Hs].
  split; [exact Hin|]. apply (satisfies_visible parts); assumption.
Qed.

(** **** ORDER BY and LIMIT *)

Lemma insertByPostedAt_In (j x : Job) (l : list Job) :
  In x (insertByPostedAt j l) ↔ x = j ∨ In x l.
Proof.
  induction l as [|y l IH]; simpl.
  - split; [intros [->|[]]; auto|intros [->|[]]; auto].
  - destruct (Row.postedAt y <? Row.postedAt j); simpl; [split; intros [|]; subst; auto|].
    rewrite IH. split; intros [|[|]]; subst; auto.
Qed.

Lemma insertByPostedAt_length (j : Job) (l : list Job) :
  List.length (insertByPostedAt j l) = S (List.length l).
Proof.
  induction l as [|y l IH]; simpl; [reflexivity|].
  destruct (Row.postedAt y <? Row.postedAt j); simpl; [reflexivity|].
  rewrite IH. reflexivity.
Qed.

Lemma orderByPostedAtDesc_In (x : Job) (l : list Job) :
  In x (orderByPostedAtDesc l) ↔ In x l.
Proof.
  unfold orderByPostedAtDesc. induction l as [|y l IH]; simpl; [tauto|].
  rewrite insertByPostedAt_In, IH. split; intros [|]; subst; auto.
Qed.

Lemma orderByPostedAtDesc_length (l : list Job) :
  List.length (orderByPostedAtDesc l) = List.length l.
Proof.
  unfold orderByPostedAtDesc. induction l as [|y l IH]; simpl; [reflexivity|].
  rewrite insertByPostedAt_length, IH. reflexivity.
Qed.

Lemma searchQuery_matching (now : Z) (params : SearchParams) (db : Table)
    (rows : list Job) :
  searchQuery now params db = Ok rows →
  ∃ all, matching now params db = Ok all ∧
         rows = take (Z.to_nat (limit params)) (orderByPostedAtDesc all).
Proof.
  unfold searchQuery. destruct (matching now params db) as [all|e]; [|discriminate].
  intros [= <-]. exists all. split; reflexivity.
Qed.

Lemma searchQuery_In (now : Z) (params : SearchParams) (db : Table)
    (rows : list Job) :
  searchQuery now params db = Ok rows →
  ∀ j, In j rows → In j db ∧ visible j.
Proof.
  intros (all & Hall & ->)%searchQuery_matching j Hin.
  apply (matching_visible now params db all Hall).
  apply orderByPostedAtDesc_In.
  apply list_elem_of_In. apply list_elem_of_In in Hin.
  apply (subseteq_take (Z.to_nat (limit params))). exact Hin.
Qed.

(** The reply on a cache miss, given the outcome of the query. *)
Lemma searchHandler_miss (now : Z) (params : SearchParams) (db : Table)
    (redis : Client SearchResult) (rows : list Job) :
  getCache now redis (searchCacheKey params) = None →
  searchQuery now params db = Ok rows →
  let result := mkResult (map jobToPin rows) (List.length (map jobToPin rows)) in
  searchHandler now params db redis
  = (Miss result, setCache now redis (searchCacheKey params) result (ttlFor params)).
Proof.
  intros Hmiss Hq. unfold searchHandler. rewrite Hmiss, Hq. reflexivity.
Qed.

Lemma ttlFor_shortLived (params : SearchParams) :
  schemaOk params → ttlFor params = if shortLived params then 180 else 300.
Proof.
  intros (Hpay & Hage & _). unfold ttlFor, shortLived.
  assert (Hset : ∀ o : option Z, (∀ n, o = Some n → 0 < n) →
                   numberSet o = bool_decide (is_Some o)).
  { intros [n|] Hpos; simpl; [|reflexivity].
    specialize (Hpos n eq_refl).
    destruct (Z.eqb_spec n 0) as [E|_]; [lia|reflexivity]. }
  rewrite (Hset _ Hpay), (Hset _ Hage). reflexivity.
Qed.

(** C1. Every row the search query returns is a stored row whose status
    is approved and whose street is neither null nor empty, whatever the
    bounding box and the optional filters; a row with another status or
    without a street is in no result; and on a cache miss the route
    answers with the pins of exactly these rows. *)
Theorem C1_search_returns_visible_rows (now : Z) (params : SearchParams) (db : Table)
    (rows : list Job) :
  searchQuery now params db = Ok rows →
  (∀ j, j ∈ rows →
     j ∈ db ∧ Row.status j = APPROVED ∧ truthy (Row.street j) = true) ∧
  (∀ j, Row.status j ≠ APPROVED ∨ truthy (Row.street j) = false → j ∉ rows) ∧
  (∀ redis, getCache now redis (searchCacheKey params) = None →
     fst (searchHandler now params db redis)
     = Miss (mkResult (map jobToPin rows) (List.length rows))).
Proof.
  intros Hq.
  assert (Hvis : ∀ j, j ∈ rows → j ∈ db ∧ visible j).
  { intros j Hin. apply list_elem_of_In in Hin.
    destruct (searchQuery_In now params db rows Hq j Hin) as [Hdb Hv].
    split; [apply list_elem_of_In, Hdb|exact Hv]. }
  split; [|split].
  - intros j Hin. destruct (Hvis j Hin) as [Hdb [Hst Hstreet]]. auto.
  - intros j Hbad Hin. destruct (Hvis j Hin) as [_ [Hst Hstreet]].
    destruct Hbad as [Hbad|Hbad]; [contradiction|congruence].
  - intros redis Hmiss.
    rewrite (searchHandler_miss now params db redis rows Hmiss Hq).
    cbv zeta. rewrite length_map. reflexivity.
Qed.

(** C2 (amended). On a cache miss the count returned with the pins is
    the length of the returned list: the number of matching rows when
    that is at most [limit], and [limit] otherwise. It never exceeds the
    length of the list. *)
Theorem C2_count_is_length_of_list (now : Z) (params : SearchParams) (db : Table)
    (redis : Client SearchResult) (all : list Job) :
  getCache now redis (searchCacheKey params) = None →
  matching now params db = Ok all →
  ∃ result redis',
    searchHandler now params db redis = (Miss result, redis') ∧
    count result = List.length (jobs result) ∧
    count result = Nat.min (Z.to_nat (limit params)) (List.length all).
Proof.
  intros Hmiss Hall.
  assert (Hq : searchQuery now params db
               = Ok (take (Z.to_nat (limit params)) (orderByPostedAtDesc all))).
  { unfold searchQuery. rewrite Hall. reflexivity. }
  rewrite (searchHandler_miss now params db redis _ Hmiss Hq). cbv zeta.
  eexists _, _. split; [reflexivity|]. cbn [count jobs].
  split; [reflexivity|].
  rewrite length_map, length_take, orderByPostedAtDesc_length. reflexivity.
Qed.

(** On a cache miss with Redis reachable, the result is stored under
    the cache key with a time to live of 180 seconds when the request
    carries a non-empty keyword, a non-empty company, a minimum pay or
    a maximum age, and of 300 seconds otherwise. *)
Lemma ttl_of_stored_result (now : Z) (params : SearchParams) (db : Table)
    (server : Server SearchResult) (rows : list Job) :
  schemaOk params →
  reachable server = true →
  getCache now (Some server) (searchCacheKey params) = None →
  searchQuery now params db = Ok rows →
  ∃ result server',
    searchHandler now params db (Some server) = (Miss result, Some server') ∧
    keys server' !! searchCacheKey params
    = Some (mkEntry result (now + (if shortLived params then 180 else 300) * 1000)).
Proof.
  intros Hschema Hup Hmiss Hq.
  rewrite (searchHandler_miss now params db (Some server) rows Hmiss Hq). cbv zeta.
  unfold setCache. rewrite Hup, (ttlFor_shortLived params Hschema).
  eexists _, _. split; [reflexivity|].
  cbn [keys]. apply lookup_insert_eq.
Qed.

End WithPlatform.

(** The search over the Phoenix area on the sample board returns the
    teacher and the nurse, not the rejected barista nor the clerk
    without a street. *)
Lemma C1_search_returns_visible_rows_witness :
  searchQuery (H := Scenario.postgres) 1700600000000 Scenario.phoenixArea Scenario.board
  = Ok [Scenario.teacher; Scenario.nurse] ∧
  (Scenario.rejectedBarista ∉ [Scenario.teacher; Scenario.nurse]) ∧
  (Scenario.clerk ∉ [Scenario.teacher; Scenario.nurse]).
Proof.
  assert (Hq : searchQuery (H := Scenario.postgres) 1700600000000
                 Scenario.phoenixArea Scenario.board
               = Ok [Scenario.teacher; Scenario.nurse]) by (vm_compute; reflexivity).
  destruct (C1_search_returns_visible_rows (H := Scenario.postgres) 1700600000000
              Scenario.phoenixArea Scenario.board _ Hq) as (_ & Hnever & _).
  split; [exact Hq|]. split; apply Hnever.
  - left. discriminate.
  - right. reflexivity.
Defined.

(** C2, as stated, fails: two rows of the sample board match the search
    capped at one result, and the count returned is 1, the length of
    the list, not 2. *)
Lemma C2_count_stops_at_limit :
  ∃ all result,
    matching (H := Scenario.postgres) 1700600000000 Scenario.phoenixTop Scenario.board
    = Ok all ∧
    fst (searchHandler (H := Scenario.postgres) 1700600000000 Scenario.phoenixTop
           Scenario.board Scenario.emptyRedis) = Miss result ∧
    List.length all = 2%nat ∧
    count result = 1%nat ∧
    List.length (jobs result) = 1%nat.
Proof.
  eexists _, _. split; [vm_compute; reflexivity|].
  split; [vm_compute; reflexivity|].
  split; [reflexivity|]. split; reflexivity.
Qed.

Lemma C2_count_is_length_of_list_witness :
  ∃ result redis',
    searchHandler (H := Scenario.postgres) 1700600000000 Scenario.phoenixTop
      Scenario.board Scenario.emptyRedis = (Miss result, redis') ∧
    count result = List.length (jobs result) ∧
    count result = 1%nat.
Proof.
  destruct (C2_count_is_length_of_list (H := Scenario.postgres) 1700600000000
              Scenario.phoenixTop Scenario.board Scenario.emptyRedis
              [Scenario.nurse; Scenario.teacher])
    as (result & redis' & Hrun & Hlen & Hmin).
  - reflexivity.
  - vm_compute. reflexivity.
  - exists result, redis'. split; [exact Hrun|]. split; [exact Hlen|].
    rewrite Hmin. reflexivity.
Defined.

(** C3 at a search whose only optional filter is an employment type:
    an optional filter is present, for which the specification and the
    comment on the route announce 180 seconds, and the result is stored
    for 300 seconds. *)
Theorem C3_type_filter_keeps_300 :
  anyOptionalFilter Scenario.phoenixFullTime = true ∧
  announcedTtl Scenario.phoenixFullTime = 180 ∧
  ttlFor Scenario.phoenixFullTime = 300 ∧
  ∃ result server',
    searchHandler (H := Scenario.postgres) 1700600000000 Scenario.phoenixFullTime
      Scenario.board Scenario.emptyRedis = (Miss result, Some server') ∧
    keys server' !! searchCacheKey Scenario.phoenixFullTime
    = Some (mkEntry result (1700600000000 + 300 * 1000)).
Proof.
  split; [reflexivity|]. split; [reflexivity|]. split; [reflexivity|].
  eexists _, _. split; [vm_compute; reflexivity|].
  vm_compute. reflexivity.
Qed.

(** The unfiltered search over the Phoenix area is stored for 300
    seconds. *)
Example ttl_of_unfiltered_search :
  ∃ result server',
    searchHandler (H := Scenario.postgres) 1700600000000 Scenario.phoenixArea
      Scenario.board Scenario.emptyRedis = (Miss result, Some server') ∧
    keys server' !! searchCacheKey Scenario.phoenixArea
    = Some (mkEntry result (1700600000000 + 300 * 1000)).
Proof.
  apply (ttl_of_stored_result (H := Scenario.postgres) 1700600000000
           Scenario.phoenixArea Scenario.board (mkServer ∅ true)
           [Scenario.teacher; Scenario.nurse]).
  - split; [discriminate|]. split; [discriminate|]. simpl. lia.
  - reflexivity.
  - reflexivity.
  - vm_compute. reflexivity.
Qed.

(** A cache hit replays the stored result without reading the table:
    the search answered from the board is answered alike, one second
    later, from an empty table. *)
Example searchHandler_hit_replays :
  ∃ result redis',
    searchHandler (H := Scenario.postgres) 1700600000000 Scenario.phoenixArea
      Scenario.board Scenario.emptyRedis = (Miss result, redis') ∧
    searchHandler (H := Scenario.postgres) 1700600001000 Scenario.phoenixArea
      [] redis' = (Hit result, redis').
Proof.
  eexists _, _. split; vm_compute; reflexivity.
Qed.

End SearchFacts.

(** *** Further properties of the search route and its cache *)

Module SearchProps.
Import JS Jobs Redis Search Spec Props SearchFacts.

Lemma Forall2_elem_r {A B : Type} (P : A -> B -> Prop) (l : list A) (k : list B) (y : B) :
  Forall2 P l k → y ∈ k → ∃ x, x ∈ l ∧ P x y.
Proof.
  induction 1 as [|x y' l k Hxy _ IH]; intros Hin; [inversion Hin|].
  apply elem_of_cons in Hin as [->|Hin].
  - exists x. split; [left|exact Hxy].
  - destruct (IH Hin) as (x' & Hx' & HP). exists x'. split; [right; exact Hx'|exact HP].
Qed.

Lemma Forall2_elem_l {A B : Type} (P : A -> B -> Prop) (l : list A) (k : list B) (x : A) :
  Forall2 P l k → x ∈ l → ∃ y, y ∈ k ∧ P x y.
Proof.
  induction 1 as [|x' y l k Hxy _ IH]; intros Hin; [inversion Hin|].
  apply elem_of_cons in Hin as [->|Hin].
  - exists y. split; [left|exact Hxy].
  - destruct (IH Hin) as (y' & Hy' & HP). exists y'. split; [right; exact Hy'|exact HP].
Qed.

Section WithPlatform.
Context `{Platform}.

(** **** The WHERE clause, condition by condition *)

Lemma castEmploymentType_name (s : string) (t : EmploymentType) :
  castEmploymentType s = Some t ↔ employmentTypeName t = s.
Proof.
  unfold castEmploymentType. split.
  - intros Hf. apply find_some in Hf as [_ Hs]. apply String.eqb_eq, Hs.
  - intros <-. destruct t; reflexivity.
Qed.

Lemma sqlGe_spec (column : option Z) (m : Z) :
  sqlGe column m = true ↔ ∃ v, column = Some v ∧ m <= v.
Proof.
  destruct column as [c|]; simpl.
  - rewrite Z.leb_le. split; [eauto|intros (v & [= ->] & Hv); exact Hv].
  - split; [discriminate|intros (v & Hv & _); discriminate].
Qed.

Lemma numberSet_spec (o : option Z) :
  numberSet o = true ↔ ∃ n, o = Some n ∧ n ≠ 0.
Proof.
  destruct o as [n|]; simpl.
  - rewrite negb_true_iff, Z.eqb_neq. split; [eauto|intros (m & [= ->] & Hm); exact Hm].
  - split; [discriminate|intros (m & Hm & _); discriminate].
Qed.

Lemma keywordCondition_spec (params : SearchParams) (j : Job) :
  satisfies (keywordCondition params) j = true ↔
  (truthy (q params) = true →
     LIKE (LOWER (Row.title j)) (containing (q params)) = true
     ∨ LIKE (LOWER (Row.description j)) (containing (q params)) = true).
Proof.
  unfold keywordCondition, satisfies, containing.
  destruct (truthy (q params)); simpl.
  - rewrite andb_true_r, orb_true_iff. tauto.
  - split; [discriminate|reflexivity].
Qed.

Lemma companyCondition_spec (params : SearchParams) (j : Job) :
  satisfies (companyCondition params) j = true ↔
  (truthy (company params) = true →
     LIKE (LOWER (Row.company j)) (containing (company params)) = true).
Proof.
  unfold companyCondition, satisfies, containing.
  destruct (truthy (company params)); simpl.
  - rewrite andb_true_r. tauto.
  - split; [discriminate|reflexivity].
Qed.

Lemma payCondition_spec (params : SearchParams) (j : Job) :
  satisfies (payCondition params) j = true ↔
  (∀ m, minPay params = Some m → m ≠ 0 →
     (∃ v, Row.payMax j = Some v ∧ m <= v) ∨ (∃ v, Row.payMin j = Some v ∧ m <= v)).
Proof.
  unfold payCondition, satisfies.
  destruct (numberSet (minPay params)) eqn:Hset; simpl.
  - apply numberSet_spec in Hset as (n & Hn & Hnz). rewrite Hn. simpl.
    rewrite andb_true_r, orb_true_iff, !sqlGe_spec. split.
    + intros Hge m [= <-] _. exact Hge.
    + intros Hall. apply (Hall n eq_refl Hnz).
  - split; [|reflexivity]. intros _ m Hm Hnz.
    assert (numberSet (minPay params) = true) by (apply numberSet_spec; eauto).
    congruence.
Qed.

Lemma ageCondition_spec (now : Z) (params : SearchParams) (j : Job) :
  satisfies (ageCondition now params) j = true ↔
  (∀ n, maxAgeDays params = Some n → n ≠ 0 → daysBefore now n <= Row.postedAt j).
Proof.
  unfold ageCondition, satisfies.
  destruct (numberSet (maxAgeDays params)) eqn:Hset; simpl.
  - apply numberSet_spec in Hset as (n & Hn & Hnz). rewrite Hn. simpl.
    rewrite andb_true_r, Z.leb_le. split.
    + intros Hge m [= <-] _. exact Hge.
    + intros Hall. apply (Hall n eq_refl Hnz).
  - split; [|reflexivity]. intros _ n Hn Hnz.
    assert (numberSet (maxAgeDays params) = true) by (apply numberSet_spec; eauto).
    congruence.
Qed.

Lemma hasType_spec (t : EmploymentType) (j : Job) :
  hasType t j = true ↔ Row.employmentType j = Some t.
Proof. unfold hasType. apply bool_decide_eq_true. Qed.

Lemma typeCondition_spec (params : SearchParams) (typeParts : list Condition) (j : Job) :
  typeCondition params = Ok typeParts →
  satisfies typeParts j = true ↔ typeRequested params j.
Proof.
  unfold typeCondition, typeRequested.
  destruct (truthy (types params)).
  - fold (typeNames params).
    destruct (mapM castEmploymentType (typeNames params)) as [ts|] eqn:Hts;
      [|discriminate].
    intros [= <-]. unfold satisfies. simpl. rewrite andb_true_r.
    apply mapM_Some in Hts. rewrite existsb_exists. split.
    + intros (t & Hin & Hty). exists t. split; [|apply hasType_spec, Hty].
      apply list_elem_of_In in Hin.
      destruct (Forall2_elem_r _ _ _ _ Hts Hin) as (name & Hname & Hcast).
      apply castEmploymentType_name in Hcast. rewrite Hcast. exact Hname.
    + intros (t & Hname & Hty).
      destruct (Forall2_elem_l _ _ _ _ Hts Hname) as (t' & Hin & Hcast).
      apply castEmploymentType_name in Hcast.
      assert (t' = t) as -> by (destruct t, t'; simpl in Hcast; congruence).
      exists t. split; [apply list_elem_of_In, Hin|apply hasType_spec, Hty].
  - destruct (type params) as [t|]; intros [= <-]; unfold satisfies; simpl.
    + rewrite andb_true_r, hasType_spec. split; [intros Hty t' [= <-]; exact Hty|auto].
    + split; [discriminate|reflexivity].
Qed.

Lemma satisfies_app (a b : list Condition) (j : Job) :
  satisfies (a ++ b)%list j = satisfies a j && satisfies b j.
Proof. apply forallb_app. Qed.

Lemma satisfies_cons (c : Condition) (l : list Condition) (j : Job) :
  satisfies (c :: l) j = c j && satisfies l j.
Proof. reflexivity. Qed.

(** The WHERE clause holds of a row exactly when the row is what the
    request asks for. *)
Lemma whereParts_qualifies (now : Z) (params : SearchParams)
    (parts : list Condition) (j : Job) :
  whereParts now params = Ok parts →
  satisfies parts j = true ↔ qualifies now params j.
Proof.
  unfold whereParts.
  destruct (typeCondition params) as [typeParts|e] eqn:Hty; [|discriminate].
  intros [= <-]. rewrite satisfies_cons, !satisfies_app, !andb_true_iff.
  rewrite keywordCondition_spec, companyCondition_spec, payCondition_spec,
    ageCondition_spec, (typeCondition_spec params typeParts j Hty).
  unfold qualifies, passesFilters, inBbox, satisfies, bboxCondition,
    approvedCondition, streetCondition.
  simpl. rewrite !andb_true_r, andb_true_iff, bool_decide_eq_true. tauto.
Qed.

Lemma matching_qualifies (now : Z) (params : SearchParams) (db : Table)
    (all : list Job) :
  matching now params db = Ok all →
  ∀ j, In j all ↔ In j db ∧ qualifies now params j.
Proof.
  unfold matching. destruct (whereParts now params) as [parts|e] eqn:Hw;
    [|discriminate].
  intros [= <-] j. rewrite filter_In, (whereParts_qualifies now params parts j Hw).
  reflexivity.
Qed.

(** **** ORDER BY and LIMIT *)

Lemma insertByPostedAt_sorted (j : Job) (l : list Job) :
  newestFirst l → newestFirst (insertByPostedAt j l).
Proof.
  unfold newestFirst. induction l as [|x l IH]; intros Hs; simpl.
  - repeat constructor.
  - apply StronglySorted_inv in Hs as [Hl Hx].
    destruct (Z.ltb_spec (Row.postedAt x) (Row.postedAt j)) as [Hlt|Hge].
    + constructor; [constructor; assumption|].
      constructor; [lia|]. eapply Forall_impl; [exact Hx|]. simpl. intros y Hy. lia.
    + constructor; [apply IH, Hl|].
      apply Forall_forall. intros y Hy. apply list_elem_of_In in Hy.
      apply insertByPostedAt_In in Hy as [->|Hy]; [lia|].
      rewrite Forall_forall in Hx. apply Hx, list_elem_of_In, Hy.
Qed.

Lemma orderByPostedAtDesc_sorted (l : list Job) : newestFirst (orderByPostedAtDesc l).
Proof.
  unfold orderByPostedAtDesc. induction l as [|x l IH]; simpl.
  - constructor.
  - apply insertByPostedAt_sorted, IH.
Qed.

Lemma newestFirst_app (a b : list Job) :
  newestFirst (a ++ b)%list →
  newestFirst a ∧ ∀ x y, x ∈ a → y ∈ b → Row.postedAt y <= Row.postedAt x.
Proof.
  unfold newestFirst. induction a as [|z a IH]; simpl; intros Hs.
  - split; [constructor|]. intros x y Hx. inversion Hx.
  - apply StronglySorted_inv in Hs as [Hs Hz]. destruct (IH Hs) as [Ha Hab].
    split.
    + constructor; [exact Ha|]. apply Forall_app in Hz as [Hz _]. exact Hz.
    + intros x y Hx Hy. apply elem_of_cons in Hx as [->|Hx]; [|apply Hab; assumption].
      apply Forall_app in Hz as [_ Hz]. rewrite Forall_forall in Hz. apply Hz, Hy.
Qed.

(** X1. Every row the search returns lies in the requested bounding
    box and passes every optional filter of the request: keyword,
    company, minimum pay, maximum age and employment types. *)
Theorem search_rows_pass_filters (now : Z) (params : SearchParams) (db : Table)
    (rows : list Job) :
  searchQuery now params db = Ok rows →
  ∀ j, j ∈ rows → inBbox params j ∧ passesFilters now params j.
Proof.
  intros (all & Hall & ->)%searchQuery_matching j Hin.
  assert (Hj : In j all).
  { apply orderByPostedAtDesc_In, list_elem_of_In.
    apply (subseteq_take (Z.to_nat (limit params))), Hin. }
  apply (matching_qualifies now params db all Hall) in Hj as [_ (Hbox & Hpass & _)].
  split; assumption.
Qed.

(** X2. The search returns the newest qualifying rows: a stored row
    that is in the box, passes the filters, is approved and has a
    street is returned, unless the result already holds [limit] rows,
    none of them older than it. *)
Theorem search_returns_newest_qualifying (now : Z) (params : SearchParams) (db : Table)
    (rows : list Job) :
  searchQuery now params db = Ok rows →
  ∀ j, j ∈ db → qualifies now params j →
    j ∈ rows ∨
    (List.length rows = Z.to_nat (limit params) ∧
     ∀ r, r ∈ rows → Row.postedAt j <= Row.postedAt r).
Proof.
  intros (all & Hall & ->)%searchQuery_matching j Hdb Hq.
  assert (Hj : j ∈ orderByPostedAtDesc all).
  { apply list_elem_of_In, orderByPostedAtDesc_In.
    apply (matching_qualifies now params db all Hall). split; [|exact Hq].
    apply list_elem_of_In, Hdb. }
  set (n := Z.to_nat (limit params)). set (sorted := orderByPostedAtDesc all) in *.
  rewrite <- (take_drop n sorted) in Hj. apply elem_of_app in Hj as [Hj|Hj].
  - left. exact Hj.
  - right. split.
    + rewrite length_take. apply Nat.min_l.
      destruct (Nat.le_gt_cases n (List.length sorted)) as [Hle|Hgt]; [exact Hle|].
      rewrite drop_ge in Hj by lia. inversion Hj.
    + intros r Hr.
      assert (Hs : newestFirst (take n sorted ++ drop n sorted)%list).
      { rewrite take_drop. apply orderByPostedAtDesc_sorted. }
      apply (proj2 (newestFirst_app _ _ Hs) r j Hr Hj).
Qed.

(** X3. The rows of a search come newest first, and there are at most
    [limit] of them, hence at most 500 under the schema of the route. *)
Theorem search_rows_ordered_and_capped (now : Z) (params : SearchParams) (db : Table)
    (rows : list Job) :
  schemaOk params →
  searchQuery now params db = Ok rows →
  newestFirst rows ∧
  Z.of_nat (List.length rows) <= limit params ∧
  (List.length rows <= 500)%nat.
Proof.
  intros (_ & _ & Hlim) (all & Hall & ->)%searchQuery_matching.
  split.
  - assert (Hs := orderByPostedAtDesc_sorted all).
    rewrite <- (take_drop (Z.to_nat (limit params)) (orderByPostedAtDesc all)) in Hs.
    apply (newestFirst_app _ _ Hs).
  - rewrite length_take. lia.
Qed.

(** X4. When a member of the [types] parameter is not the name of an
    employment type, the statement fails: on a cache miss the route
    answers with an internal error and stores nothing. *)
Theorem search_unknown_type_is_an_error (now : Z) (params : SearchParams) (db : Table)
    (redis : Client SearchResult) (name : string) :
  truthy (types params) = true →
  name ∈ typeNames params →
  (∀ t, employmentTypeName t ≠ name) →
  getCache now redis (searchCacheKey params) = None →
  ∃ message, searchHandler now params db redis = (InternalError message, redis).
Proof.
  intros Htypes Hname Hnot Hmiss.
  assert (Hcast : castEmploymentType name = None).
  { destruct (castEmploymentType name) as [t|] eqn:Hc; [|reflexivity].
    apply castEmploymentType_name in Hc. destruct (Hnot t Hc). }
  assert (Hty : ∃ e, typeCondition params = Throw e).
  { unfold typeCondition. rewrite Htypes. fold (typeNames params).
    rewrite (proj2 (mapM_None castEmploymentType (typeNames params))); [eauto|].
    apply Exists_exists. eauto. }
  destruct Hty as [e Hty]. exists e.
  unfold searchHandler, searchQuery, matching, whereParts.
  rewrite Hmiss, Hty. reflexivity.
Qed.

(** **** The read-through cache *)

(** X5. A search answered from storage with Redis reachable is cached:
    the same request is answered with the identical result, marked as
    a hit, at any instant before the time to live has elapsed, whatever
    the table holds by then; from that instant on it is looked up in
    the table again. *)
Theorem search_cache_coherence (now : Z) (params : SearchParams) (db : Table)
    (server : Server SearchResult) (result : SearchResult)
    (redis' : Client SearchResult) :
  reachable server = true →
  searchHandler now params db (Some server) = (Miss result, redis') →
  ∀ later db',
    (later < now + ttlFor params * 1000 →
       searchHandler later params db' redis' = (Hit result, redis')) ∧
    (now + ttlFor params * 1000 <= later →
       ∀ rows, searchQuery later params db' = Ok rows →
         fst (searchHandler later params db' redis')
         = Miss (mkResult (map jobToPin rows) (List.length rows))).
Proof.
  intros Hup Hrun later db'.
  unfold searchHandler in Hrun.
  destruct (getCache now (Some server) (searchCacheKey params)) as [c|] eqn:Hget;
    [discriminate Hrun|].
  destruct (searchQuery now params db) as [rows0|e]; [|discriminate Hrun].
  injection Hrun as <- <-. unfold setCache. rewrite Hup.
  set (result := mkResult (map jobToPin rows0) (List.length (map jobToPin rows0))).
  assert (Hlook : ∀ t, getCache t
            (Some (mkServer (<[searchCacheKey params :=
                                 mkEntry result (now + ttlFor params * 1000)]>
                               (keys server)) true)) (searchCacheKey params)
          = if t <? now + ttlFor params * 1000 then Some result else None).
  { intros t. unfold getCache. cbn [reachable keys]. rewrite lookup_insert_eq.
    reflexivity. }
  split.
  - intros Hbefore. unfold searchHandler. rewrite Hlook.
    rewrite (proj2 (Z.ltb_lt _ _) Hbefore). reflexivity.
  - intros Hafter rows Hq. unfold searchHandler. rewrite Hlook.
    rewrite (proj2 (Z.ltb_ge _ _) Hafter), Hq. cbn [fst].
    rewrite length_map. reflexivity.
Qed.

(** X6. The cache is transparent: without Redis, or with Redis out of
    reach, the route answers what it answers on any cache miss, reads
    the table, and leaves the cache as it is. *)
Theorem search_without_cache (now : Z) (params : SearchParams) (db : Table)
    (redis : Client SearchResult) :
  redis = None ∨ (∃ server, redis = Some server ∧ reachable server = false) →
  searchHandler now params db redis
  = (match searchQuery now params db with
     | Ok rows => Miss (mkResult (map jobToPin rows) (List.length rows))
     | Throw e => InternalError e
     end, redis) ∧
  ∀ other, getCache now other (searchCacheKey params) = None →
    fst (searchHandler now params db other) = fst (searchHandler now params db redis).
Proof.
  intros Hoff.
  assert (Hmiss : getCache now redis (searchCacheKey params) = None).
  { destruct Hoff as [->|(server & -> & Hdown)]; [reflexivity|].
    unfold getCache. rewrite Hdown. reflexivity. }
  assert (Hset : ∀ r ttl, setCache now redis (searchCacheKey params) r ttl = redis).
  { intros r ttl. destruct Hoff as [->|(server & -> & Hdown)]; [reflexivity|].
    unfold setCache. rewrite Hdown. reflexivity. }
  split.
  - unfold searchHandler. rewrite Hmiss.
    destruct (searchQuery now params db) as [rows|e]; [|reflexivity].
    rewrite Hset, length_map. reflexivity.
  - intros other Hother. unfold searchHandler. rewrite Hmiss, Hother.
    destruct (searchQuery now params db); reflexivity.
Qed.

End WithPlatform.

(** X7. A value set with a time to live is read back under its key
    until the time to live has elapsed and not afterwards; setting it
    leaves the other keys as they were. *)
Theorem cache_set_then_get {V : Type} (now : Z) (server : Server V)
    (key : string) (v : V) (ttl : Z) :
  reachable server = true →
  ∀ later,
    getCache later (setCache now (Some server) key v ttl) key
    = (if later <? now + ttl * 1000 then Some v else None) ∧
    ∀ other, other ≠ key →
      getCache later (setCache now (Some server) key v ttl) other
      = getCache later (Some server) other.
Proof.
  intros Hup later. unfold setCache, getCache. rewrite Hup. cbn [reachable keys].
  split.
  - rewrite lookup_insert_eq. reflexivity.
  - intros other Hne. rewrite lookup_insert_ne by congruence. reflexivity.
Qed.

(** **** The properties on the sample board *)

Lemma search_rows_pass_filters_witness :
  inBbox (H := Scenario.postgres) Cases.wellPaid Scenario.nurse ∧
  passesFilters (H := Scenario.postgres) 1700600000000 Cases.wellPaid Scenario.nurse.
Proof.
  apply (search_rows_pass_filters (H := Scenario.postgres) 1700600000000
           Cases.wellPaid Scenario.board [Scenario.teacher; Scenario.nurse]).
  - vm_compute. reflexivity.
  - right. left.
Defined.

Lemma search_returns_newest_qualifying_witness :
  Scenario.nurse ∈ [Scenario.teacher] ∨
  (List.length [Scenario.teacher] = 1%nat ∧
   ∀ r, r ∈ [Scenario.teacher] → Row.postedAt Scenario.nurse <= Row.postedAt r).
Proof.
  apply (search_returns_newest_qualifying (H := Scenario.postgres) 1700600000000
           Scenario.phoenixTop Scenario.board [Scenario.teacher]).
  - vm_compute. reflexivity.
  - left.
  - unfold qualifies, inBbox, passesFilters, typeRequested.
    repeat split; try reflexivity; try discriminate.
Defined.

Lemma search_rows_ordered_and_capped_witness :
  newestFirst [Scenario.teacher; Scenario.nurse] ∧
  Z.of_nat (List.length [Scenario.teacher; Scenario.nurse]) <= 200 ∧
  (List.length [Scenario.teacher; Scenario.nurse] <= 500)%nat.
Proof.
  apply (search_rows_ordered_and_capped (H := Scenario.postgres) 1700600000000
           Scenario.phoenixArea Scenario.board).
  - split; [discriminate|]. split; [discriminate|]. simpl. lia.
  - vm_compute. reflexivity.
Defined.

Lemma search_unknown_type_is_an_error_witness :
  ∃ message,
    searchHandler (H := Scenario.postgres) 1700600000000 Cases.misspelt
      Scenario.board Scenario.emptyRedis
    = (InternalError message, Scenario.emptyRedis).
Proof.
  apply (search_unknown_type_is_an_error (H := Scenario.postgres) 1700600000000
           Cases.misspelt Scenario.board Scenario.emptyRedis "freelance").
  - reflexivity.
  - right. left.
  - intros t. destruct t; discriminate.
  - reflexivity.
Defined.

Lemma search_cache_coherence_witness :
  searchHandler (H := Scenario.postgres) (1700600000000 + 299999) Scenario.phoenixArea []
    (snd (searchHandler (H := Scenario.postgres) 1700600000000 Scenario.phoenixArea
            Scenario.board Scenario.emptyRedis))
  = (Hit (mkResult (map jobToPin [Scenario.teacher; Scenario.nurse]) 2),
     snd (searchHandler (H := Scenario.postgres) 1700600000000 Scenario.phoenixArea
            Scenario.board Scenario.emptyRedis)).
Proof.
  apply (search_cache_coherence (H := Scenario.postgres) 1700600000000
           Scenario.phoenixArea Scenario.board (mkServer ∅ true)
           (mkResult (map jobToPin [Scenario.teacher; Scenario.nurse]) 2)
           _ eq_refl).
  - vm_compute. reflexivity.
  - vm_compute. reflexivity.
Defined.

Lemma search_without_cache_witness :
  searchHandler (H := Scenario.postgres) 1700600000000 Scenario.phoenixArea
    Scenario.board None
  = (Miss (mkResult (map jobToPin [Scenario.teacher; Scenario.nurse]) 2), None).
Proof.
  apply (search_without_cache (H := Scenario.postgres) 1700600000000
           Scenario.phoenixArea Scenario.board None).
  left. reflexivity.
Defined.

Lemma cache_set_then_get_witness :
  getCache 1700600179999
    (setCache 1700600000000 (Some (mkServer ∅ true)) "jobs:suggestions" 7%nat 180)
    "jobs:suggestions" = Some 7%nat ∧
  getCache 1700600180000
    (setCache 1700600000000 (Some (mkServer ∅ true)) "jobs:suggestions" 7%nat 180)
    "jobs:suggestions" = None.
Proof.
  split.
  - apply (cache_set_then_get 1700600000000 (mkServer ∅ true) "jobs:suggestions"
             7%nat 180 eq_refl 1700600179999).
  - apply (cache_set_then_get 1700600000000 (mkServer ∅ true) "jobs:suggestions"
             7%nat 180 eq_refl 1700600180000).
Defined.

End SearchProps.
(** *** Further properties of the upsert engine *)

Module JobsProps.
Import JS Jobs Spec Props JobsFacts.

Lemma hasKey_keyOf (source : JobSource) (sourceId : string) (j : Job) :
  hasKey source sourceId j = true ↔ keyOf j = (source, sourceId).
Proof.
  unfold hasKey, keyOf. rewrite andb_true_iff, bool_decide_eq_true, String.eqb_eq.
  split; [intros [-> ->]; reflexivity|intros [= -> ->]; auto].
Qed.

Lemma stored_None_keyOf (source : JobSource) (sourceId : string) (db : Table) :
  stored source sourceId db = None → (source, sourceId) ∉ map keyOf db.
Proof.
  intros Hnone%stored_None Hin.
  apply list_elem_of_fmap in Hin as (j & Hkey & Hj).
  assert (Hf : In j (List.filter (hasKey source sourceId) db)).
  { apply filter_In. split; [apply list_elem_of_In, Hj|].
    apply hasKey_keyOf. symmetry. exact Hkey. }
  rewrite Hnone in Hf. exact Hf.
Qed.

Lemma updateWhereId_ids (i : string) (f : Job -> Job) (db : Table) :
  (∀ j, Row.id (f j) = Row.id j) →
  map Row.id (updateWhereId i f db) = map Row.id db.
Proof.
  intros Hid. unfold updateWhereId. rewrite map_map. apply map_ext.
  intros j. destruct (hasId i j); [apply Hid|reflexivity].
Qed.

Lemma updateWhereId_keys (i : string) (f : Job -> Job) (db : Table) :
  (∀ j, keyOf (f j) = keyOf j) →
  map keyOf (updateWhereId i f db) = map keyOf db.
Proof.
  intros Hkey. unfold updateWhereId. rewrite map_map. apply map_ext.
  intros j. destruct (hasId i j); [apply Hkey|reflexivity].
Qed.

Lemma updated_keyOf now data existing j : keyOf (updated now data existing j) = keyOf j.
Proof. unfold updated. destruct (coordinatesChanged existing data); reflexivity. Qed.

Lemma existsb_hasId_elem (i : string) (db : Table) :
  existsb (hasId i) db = false → i ∉ map Row.id db.
Proof.
  intros Hfresh Hin. apply list_elem_of_fmap in Hin as (j & -> & Hj).
  assert (existsb (hasId (Row.id j)) db = true); [|congruence].
  apply existsb_exists. exists j. split; [apply list_elem_of_In, Hj|apply hasId_refl].
Qed.

(** The three ways an upsert can end. *)
Lemma upsertJob_cases (now : Z) (jobId : string) (data : JobInput) (db : Table) :
  (∃ e, upsertJob now jobId data db = (Throw e, db)) ∨
  (∃ old, sourceIdMissing data = false ∧
          stored (Input.source data) (Input.sourceId data) db = Some old ∧
          upsertJob now jobId data db
          = (Ok (mkUpsert
                   (head (selectById (Row.id old)
                            (updateWhereId (Row.id old) (updated now data old) db)))
                   false),
             updateWhereId (Row.id old) (updated now data old) db)) ∨
  (sourceIdMissing data = false ∧
   stored (Input.source data) (Input.sourceId data) db = None ∧
   existsb (hasId jobId) db = false ∧
   upsertJob now jobId data db
   = (Ok (mkUpsert (Some (newRow now jobId (defaultStatus data) data)) true),
      (db ++ [newRow now jobId (defaultStatus data) data])%list)).
Proof.
  destruct (sourceIdMissing data) eqn:Hvalid.
  { left. unfold upsertJob. rewrite Hvalid. eauto. }
  destruct (stored (Input.source data) (Input.sourceId data) db) as [old|] eqn:Hst.
  { right. left. exists old. split; [reflexivity|]. split; [reflexivity|].
    apply (upsertJob_update now jobId data db old Hvalid Hst). }
  destruct (existsb (hasId jobId) db) eqn:Hfresh.
  { left. unfold upsertJob. rewrite Hvalid, (stored_None _ _ _ Hst), Hfresh. eauto. }
  right. right. split; [reflexivity|]. split; [reflexivity|]. split; [reflexivity|].
  apply (upsertJob_insert now jobId data db Hvalid Hst Hfresh).
Qed.

(** X8. Upsert keeps the table well formed: if no two rows share an id
    and no two rows share a (source, sourceId) key before the call, the
    same holds after it, however the call ends. It never creates a
    second row for a key. *)
Theorem upsert_keeps_keys_unique (now : Z) (jobId : string) (data : JobInput)
    (db db' : Table) (outcome : result UpsertResult) :
  uniqueIds db → uniqueKeys db →
  upsertJob now jobId data db = (outcome, db') →
  uniqueIds db' ∧ uniqueKeys db'.
Proof.
  unfold uniqueIds, uniqueKeys. intros Hids Hkeys Hrun.
  destruct (upsertJob_cases now jobId data db)
    as [[e He]|[(old & _ & _ & He)|(_ & Habsent & Hfresh & He)]];
    rewrite He in Hrun; injection Hrun as <- <-.
  - auto.
  - rewrite updateWhereId_ids by apply updated_id.
    rewrite updateWhereId_keys by apply updated_keyOf. auto.
  - rewrite !map_app. simpl. split; apply NoDup_app; (split; [assumption|]).
    + split; [|apply NoDup_singleton].
      intros i Hi Hnew. apply list_elem_of_singleton in Hnew as ->.
      apply (existsb_hasId_elem _ _ Hfresh), Hi.
    + split; [|apply NoDup_singleton].
      intros k Hk Hnew. apply list_elem_of_singleton in Hnew as ->.
      apply (stored_None_keyOf _ _ _ Habsent), Hk.
Qed.

Lemma uniqueIds_same (db : Table) (x y : Job) :
  uniqueIds db → x ∈ db → y ∈ db → Row.id y = Row.id x → y = x.
Proof.
  intros Huniq Hx Hy Hid.
  assert (Hsel : In y (selectById (Row.id x) db)).
  { unfold selectById. apply filter_In. split; [apply list_elem_of_In, Hy|].
    unfold hasId. rewrite Hid. apply String.eqb_refl. }
  rewrite (selectById_unique db x Huniq Hx) in Hsel.
  destruct Hsel as [-> | []]. reflexivity.
Qed.

Lemma updateWhereId_elem (i : string) (f : Job -> Job) (db : Table) (j : Job) :
  j ∈ updateWhereId i f db ↔
  ∃ x, x ∈ db ∧ j = (if hasId i x then f x else x).
Proof.
  unfold updateWhereId. rewrite list_elem_of_fmap. split.
  - intros (x & -> & Hx). eauto.
  - intros (x & Hx & ->). eauto.
Qed.

(** X9. An upsert that fails writes nothing. One that succeeds leaves
    the number of rows as it is when it updates and adds one row when it
    creates, and the rows of every other (source, sourceId) key are the
    same before and after. *)
Theorem upsert_touches_one_key (now : Z) (jobId : string) (data : JobInput)
    (db db' : Table) (outcome : result UpsertResult) :
  uniqueIds db →
  upsertJob now jobId data db = (outcome, db') →
  match outcome with
  | Throw _ => db' = db
  | Ok r =>
      List.length db' = (List.length db + (if created r then 1 else 0))%nat ∧
      ∀ j, keyOf j ≠ (Input.source data, Input.sourceId data) → j ∈ db' ↔ j ∈ db
  end.
Proof.
  intros Huniq Hrun.
  destruct (upsertJob_cases now jobId data db)
    as [[e He]|[(old & _ & Hst & He)|(_ & Habsent & Hfresh & He)]];
    rewrite He in Hrun; injection Hrun as <- <-.
  - reflexivity.
  - cbn [created]. split.
    { unfold updateWhereId. rewrite length_map. lia. }
    destruct (stored_Some _ _ _ _ Hst) as [Hold [rest Hf]].
    assert (Hkey : keyOf old = (Input.source data, Input.sourceId data)).
    { apply hasKey_keyOf.
      assert (Hin : In old (List.filter (hasKey (Input.source data) (Input.sourceId data)) db))
        by (rewrite Hf; left; reflexivity).
      apply filter_In in Hin as [_ Hk]. exact Hk. }
    intros j Hne. rewrite updateWhereId_elem. split.
    + intros (x & Hx & ->). destruct (hasId (Row.id old) x) eqn:Hid; [|exact Hx].
      exfalso. apply Hne. rewrite updated_keyOf.
      apply String.eqb_eq in Hid.
      rewrite (uniqueIds_same db old x Huniq Hold Hx Hid). exact Hkey.
    + intros Hj. exists j. split; [exact Hj|].
      destruct (hasId (Row.id old) j) eqn:Hid; [|reflexivity].
      exfalso. apply Hne. apply String.eqb_eq in Hid.
      rewrite (uniqueIds_same db old j Huniq Hold Hj Hid). exact Hkey.
  - cbn [created]. split.
    { rewrite length_app. simpl. lia. }
    intros j Hne. rewrite elem_of_app, list_elem_of_singleton. split; [|auto].
    intros [Hj | ->]; [exact Hj|]. destruct Hne. reflexivity.
Qed.

(** X10. The status an upsert leaves on the row it returns: the status
    of the input when it carries one; otherwise the status the stored
    row had, and for a new row PENDING when the source is MANUAL and
    APPROVED for every other source. *)
Theorem upsert_status (now : Z) (jobId : string) (data : JobInput)
    (db db' : Table) (j : Job) (flag : bool) :
  uniqueIds db →
  upsertJob now jobId data db = (Ok (mkUpsert (Some j) flag), db') →
  Row.status j
  = match Input.status data, stored (Input.source data) (Input.sourceId data) db with
    | Some s, _ => s
    | None, Some old => Row.status old
    | None, None => initialStatus (Input.source data)
    end.
Proof.
  intros Huniq Hrun.
  destruct (upsertJob_cases now jobId data db)
    as [[e He]|[(old & Hvalid & Hst & _)|(_ & Habsent & _ & He)]].
  - rewrite He in Hrun. discriminate Hrun.
  - destruct (upsertJob_existing now jobId data db old Huniq Hvalid Hst) as [He _].
    cbv zeta in He. rewrite He in Hrun. injection Hrun as <- _ _.
    rewrite Hst. unfold updated.
    destruct (coordinatesChanged old data); simpl;
      destruct (Input.status data); reflexivity.
  - rewrite He in Hrun. injection Hrun as <- _ _. rewrite Habsent.
    unfold defaultStatus. cbn [Row.status newRow].
    destruct (Input.status data); [reflexivity|].
    destruct (Input.source data); reflexivity.
Qed.

Lemma upsert_keeps_keys_unique_witness :
  uniqueIds (snd (upsertJob 1700600000000 "c3" Scenario.baristaMoved Scenario.table)) ∧
  uniqueKeys (snd (upsertJob 1700600000000 "c3" Scenario.baristaMoved Scenario.table)).
Proof.
  apply (upsert_keeps_keys_unique 1700600000000 "c3" Scenario.baristaMoved
           Scenario.table _
           (fst (upsertJob 1700600000000 "c3" Scenario.baristaMoved Scenario.table))).
  - apply (bool_decide_unpack _). vm_compute. exact I.
  - apply (bool_decide_unpack _). vm_compute. exact I.
  - apply surjective_pairing.
Defined.

Lemma upsert_touches_one_key_witness :
  List.length (snd (upsertJob 1700600000000 "c3" Scenario.barista [Scenario.nurse]))
  = 2%nat ∧
  snd (upsertJob 1700600000000 "c3" Scenario.anonymous Scenario.table) = Scenario.table.
Proof.
  split.
  - apply (upsert_touches_one_key 1700600000000 "c3" Scenario.barista [Scenario.nurse] _
             (Ok (mkUpsert
                    (Some (newRow 1700600000000 "c3" APPROVED Scenario.barista)) true))).
    + apply (bool_decide_unpack _). vm_compute. exact I.
    + vm_compute. reflexivity.
  - apply (upsert_touches_one_key 1700600000000 "c3" Scenario.anonymous Scenario.table _
             (Throw "sourceId is required but was:   ")).
    + apply (bool_decide_unpack _). vm_compute. exact I.
    + vm_compute. reflexivity.
Defined.

Lemma upsert_status_witness :
  Row.status (newRow 1700600000000 "c3" APPROVED Scenario.barista) = APPROVED.
Proof.
  apply (upsert_status 1700600000000 "c3" Scenario.barista [Scenario.nurse]
           [Scenario.nurse; newRow 1700600000000 "c3" APPROVED Scenario.barista]
           _ true).
  - apply (bool_decide_unpack _). vm_compute. exact I.
  - vm_compute. reflexivity.
Defined.

End JobsProps.
(** *** Further properties of the geocode resolver *)

Module GeocodeProps.
Import JS Geocode Spec Props GeocodeFacts.

Lemma keepTruthy_truthy (o : option string) :
  truthy o = true → keepTruthy o = o.
Proof. unfold keepTruthy. intros ->. reflexivity. Qed.

(** X11. The street-level gate: when reverse geocoding with imprecise
    results not allowed returns an address, the address has a street
    that is not empty, and the candidate it was read from is no city-
    or region-level match. *)
Theorem reverse_address_has_street (env : Env) (log log' : list request)
    (lat lon : float) (a : GeocodeAddress) :
  reverseGeocode env log lat lon false = (Ok (Some a), log') →
  truthy (street a) = true ∧
  ∃ first rest,
    fetch env (List.length log) (ReverseLookup lon lat) = Http true (Some (first :: rest)) ∧
    ¬ cityLevel (featureType (selectFeature first rest)).
Proof.
  unfold reverseGeocode, send.
  destruct (negb (truthy (MAPBOX_TOKEN env))); [discriminate|].
  destruct (fetch env (List.length log) (ReverseLookup lon lat))
    as [|[|] [[|first rest]|]] eqn:Hfetch; try discriminate.
  intros [= Haddr _]. unfold addressOfFeatures in Haddr. cbn [negb andb] in Haddr.
  set (best := selectFeature first rest) in *.
  destruct (negb (isType (featureType best) "poi" || isType (featureType best) "address")
            && (isType (featureType best) "place" || isType (featureType best) "region"))
    eqn:Hgate; [discriminate Haddr|].
  destruct (truthy (streetOf best)) eqn:Hstreet; [|discriminate Haddr].
  cbn [negb andb] in Haddr. injection Haddr as <-. cbn [street].
  split; [rewrite (keepTruthy_truthy _ Hstreet); exact Hstreet|].
  exists first, rest. split; [reflexivity|]. fold best.
  intros [Hty|Hty]; rewrite Hty in Hgate; discriminate Hgate.
Qed.

(** X12. Reverse geocoding without a token throws before any request.
    With a token it sends exactly one request and never throws: a
    rejected request, a response that is not ok and a response without
    features all give [null]. *)
Theorem reverse_failure_is_null (env : Env) (log : list request) (lat lon : float)
    (allowImprecise : bool) :
  (truthy (MAPBOX_TOKEN env) = false →
     ∃ e, reverseGeocode env log lat lon allowImprecise = (Throw e, log)) ∧
  (truthy (MAPBOX_TOKEN env) = true →
     (∃ r, reverseGeocode env log lat lon allowImprecise
           = (Ok r, (log ++ [ReverseLookup lon lat])%list)) ∧
     (∀ features,
        fetch env (List.length log) (ReverseLookup lon lat) = Rejected
        ∨ fetch env (List.length log) (ReverseLookup lon lat) = Http false features
        ∨ fetch env (List.length log) (ReverseLookup lon lat) = Http true None
        ∨ fetch env (List.length log) (ReverseLookup lon lat) = Http true (Some []) →
        reverseGeocode env log lat lon allowImprecise
        = (Ok None, (log ++ [ReverseLookup lon lat])%list))).
Proof.
  unfold reverseGeocode, send. split; intros ->; cbn [negb]; [eauto|].
  split.
  - destruct (fetch env (List.length log) (ReverseLookup lon lat))
      as [|[|] [[|first rest]|]]; eauto.
  - intros features [->|[->|[->| ->]]]; reflexivity.
Qed.

(** **** The forward resolver *)

Lemma cityBias_sent (env : Env) (log : list request) (a : GeocodeAddress) :
  ∃ extra, snd (cityBias env log a) = (log ++ extra)%list ∧ (List.length extra <= 1)%nat.
Proof.
  unfold cityBias. destruct (truthy (city a) && truthy (state a)).
  - exists [PlaceLookup (default EmptyString (city a) ++ ", " ++ default EmptyString (state a))].
    split; [|simpl; lia]. unfold send.
    destruct (fetch env _ _) as [|[|] [[|? ?]|]]; reflexivity.
  - exists []. split; [rewrite app_nil_r; reflexivity|simpl; lia].
Qed.

Lemma geocodeWithMapbox_sent (env : Env) (log : list request) (a : GeocodeAddress) :
  ∃ extra, snd (geocodeWithMapbox env log a) = (log ++ extra)%list
           ∧ (List.length extra <= 2)%nat.
Proof.
  unfold geocodeWithMapbox.
  destruct (negb (truthy (MAPBOX_TOKEN env))).
  { exists []. split; [rewrite app_nil_r; reflexivity|simpl; lia]. }
  destruct (join ", " _) as [|c query] eqn:Hq.
  { exists []. split; [rewrite app_nil_r; reflexivity|simpl; lia]. }
  destruct (cityBias_sent env log a) as (extra & Hextra & Hlen).
  destruct (cityBias env log a) as [proximity log1]. cbn [snd] in Hextra. subst log1.
  exists (extra ++ [ForwardLookup (String c query) (orElse (country a) "US") proximity])%list.
  split; [|rewrite length_app; simpl; lia].
  unfold send. rewrite <- app_assoc.
  destruct (fetch env _ _) as [|[|] [[|f ?]|]]; try reflexivity.
  destruct (center f) as [[? ?]|]; reflexivity.
Qed.

(** X13. One forward resolution sends at most two requests, appended
    to those sent before, and none on a cache hit; it changes the
    geocode cache at the key of the address only, and not at all when
    it fails. *)
Theorem forward_requests_and_cache (env : Env) (st : State) (a : GeocodeAddress) :
  let run := geocodeAddress env st a in
  (∃ extra, sent (snd run) = (sent st ++ extra)%list ∧ (List.length extra <= 2)%nat) ∧
  (∀ cached, cacheLookup env st (normalizeAddressKey a) = Some cached →
     sent (snd run) = sent st ∧ geocodeCache (snd run) = geocodeCache st) ∧
  (∀ e, fst run = Throw e → geocodeCache (snd run) = geocodeCache st) ∧
  (∀ key, key ≠ normalizeAddressKey a →
     geocodeCache (snd run) !! key = geocodeCache st !! key).
Proof.
  cbv zeta. unfold geocodeAddress.
  destruct (cacheLookup env st (normalizeAddressKey a)) as [cached|] eqn:Hlook.
  - cbn [fst snd]. split; [exists []; rewrite app_nil_r; split; [reflexivity|simpl; lia]|].
    split; [auto|]. split; [discriminate|reflexivity].
  - destruct (geocodeWithMapbox_sent env (sent st) a) as (extra & Hextra & Hlen).
    destruct (geocodeWithMapbox env (sent st) a) as [[r|e] log]; cbn [fst snd sent geocodeCache] in *.
    + split; [eauto|]. split; [discriminate|]. split; [discriminate|].
      intros key Hne. unfold cacheStore.
      destruct (cacheWritable env); [|reflexivity].
      rewrite lookup_insert_ne by congruence. reflexivity.
    + split; [eauto|]. split; [discriminate|]. split; reflexivity.
Qed.

(** The environment with another answer to "can the cache be written". *)
Lemma geocodeWithMapbox_cache_flags (token : option string)
    (service : nat -> request -> response) (r1 w1 r2 w2 : bool)
    (log : list request) (a : GeocodeAddress) :
  geocodeWithMapbox (mkEnv token service r1 w1) log a
  = geocodeWithMapbox (mkEnv token service r2 w2) log a.
Proof. reflexivity. Qed.

(** X14. A failing cache never fails a resolution: with the geocode
    cache unreadable, the resolver returns what the Mapbox lookup
    returns, whether or not the cache can be written; and the outcome
    and the requests of a resolution do not depend on whether the
    write succeeds. *)
Theorem forward_survives_cache_failure (token : option string)
    (service : nat -> request -> response) (readable writable : bool)
    (st : State) (a : GeocodeAddress) :
  fst (geocodeAddress (mkEnv token service false writable) st a)
  = fst (geocodeWithMapbox (mkEnv token service false writable) (sent st) a) ∧
  fst (geocodeAddress (mkEnv token service readable writable) st a)
  = fst (geocodeAddress (mkEnv token service readable (negb writable)) st a) ∧
  sent (snd (geocodeAddress (mkEnv token service readable writable) st a))
  = sent (snd (geocodeAddress (mkEnv token service readable (negb writable)) st a)).
Proof.
  unfold geocodeAddress, cacheLookup. cbn [cacheReadable].
  rewrite (geocodeWithMapbox_cache_flags token service readable (negb writable)
             readable writable).
  rewrite (geocodeWithMapbox_cache_flags token service false writable readable writable).
  split; [|split].
  - destruct (geocodeWithMapbox _ (sent st) a) as [[r|e] log]; reflexivity.
  - destruct readable; [destruct (geocodeCache st !! normalizeAddressKey a)|];
      try reflexivity;
      destruct (geocodeWithMapbox _ (sent st) a) as [[r|e] log]; reflexivity.
  - destruct readable; [destruct (geocodeCache st !! normalizeAddressKey a)|];
      try reflexivity;
      destruct (geocodeWithMapbox _ (sent st) a) as [[r|e] log]; reflexivity.
Qed.

(** X15. A failing city lookup does not abort a resolution: when the
    address has a city and a state and the lookup of the city is
    rejected, answered with an error status or answered without a
    feature, the full query is sent all the same, without a proximity
    bias, and its first feature gives the coordinate. *)
Theorem forward_without_bias (env : Env) (log : list request) (a : GeocodeAddress)
    (cityAnswer : response) (feature : Feature) (others : list Feature)
    (lon lat : float) :
  truthy (MAPBOX_TOKEN env) = true →
  truthy (city a) = true → truthy (state a) = true →
  let cityQuery := PlaceLookup (default EmptyString (city a) ++ ", "
                                ++ default EmptyString (state a)) in
  let query := join ", " (filterTruthy [street a; city a; state a; postalCode a;
                                        country a]) in
  let fullQuery := ForwardLookup query (orElse (country a) "US") None in
  fetch env (List.length log) cityQuery = cityAnswer →
  (cityAnswer = Rejected ∨ (∃ fs, cityAnswer = Http false fs)
   ∨ cityAnswer = Http true None ∨ cityAnswer = Http true (Some [])) →
  fetch env (S (List.length log)) fullQuery = Http true (Some (feature :: others)) →
  center feature = Some (lon, lat) →
  geocodeWithMapbox env log a
  = (Ok (mkCoord lat lon), (log ++ [cityQuery; fullQuery])%list).
Proof.
  intros Htoken Hcity Hstate cityQuery query fullQuery Hanswer Hfail Hfull Hcenter.
  assert (Hbias : cityBias env log a = (None, (log ++ [cityQuery])%list)).
  { unfold cityBias, send. rewrite Hcity, Hstate. cbn [andb].
    fold cityQuery. rewrite Hanswer.
    destruct Hfail as [->|[[fs ->]|[->| ->]]]; reflexivity. }
  assert (Hjoin : ∀ c s tail, join ", " (String c s :: tail) ≠ EmptyString).
  { intros c s tail. destruct tail; simpl; discriminate. }
  assert (Hquery : query ≠ EmptyString).
  { unfold query. destruct (street a) as [[|c s]|], (city a) as [[|c' s']|];
      try discriminate Hcity; cbn [filterTruthy]; apply Hjoin. }
  unfold geocodeWithMapbox. rewrite Htoken. cbn [negb].
  subst fullQuery. fold query. clearbody query cityQuery.
  destruct query as [|c q]; [destruct Hquery; reflexivity|].
  rewrite Hbias. unfold send. rewrite length_app. cbn [List.length].
  rewrite Nat.add_1_r, Hfull, Hcenter, <- app_assoc. reflexivity.
Qed.

(** **** The choice of a candidate *)

Lemma precisionOf_poi (ty : option string) :
  (3 <= precisionOf ty)%nat → ty = Some "poi".
Proof.
  intros Hp. destruct (decide (ty = Some "poi")) as [E|Hpoi]; [exact E|].
  destruct (decide (ty = Some "address")) as [->|Haddr]; [simpl in Hp; lia|].
  destruct (decide (ty = Some "street")) as [->|Hstr]; [simpl in Hp; lia|].
  rewrite (precisionOf_other ty Hpoi Haddr Hstr) in Hp. lia.
Qed.

Lemma precisionOf_precise (ty : option string) :
  (2 <= precisionOf ty)%nat → ty = Some "poi" ∨ ty = Some "address".
Proof.
  intros Hp. destruct (decide (ty = Some "poi")) as [E|Hpoi]; [auto|].
  destruct (decide (ty = Some "address")) as [E|Haddr]; [auto|].
  destruct (decide (ty = Some "street")) as [->|Hstr]; [simpl in Hp; lia|].
  rewrite (precisionOf_other ty Hpoi Haddr Hstr) in Hp. lia.
Qed.

(** X16. Precise candidates win: when a point of interest is among the
    candidates the one chosen is a point of interest, and when a point
    of interest or an address is among them the one chosen is one of
    the two; reverse geocoding without imprecise results then answers
    with the street of that candidate when it has one and with [null]
    when it has none. *)
Theorem reverse_prefers_precise (env : Env) (log : list request) (lat lon : float)
    (first : Feature) (rest : list Feature) (f : Feature) :
  truthy (MAPBOX_TOKEN env) = true →
  fetch env (List.length log) (ReverseLookup lon lat) = Http true (Some (first :: rest)) →
  f ∈ first :: rest →
  featureType f = Some "poi" ∨ featureType f = Some "address" →
  let best := selectFeature first rest in
  (featureType f = Some "poi" → featureType best = Some "poi") ∧
  (featureType best = Some "poi" ∨ featureType best = Some "address") ∧
  (truthy (streetOf best) = true →
     ∃ a, fst (reverseGeocode env log lat lon false) = Ok (Some a)
          ∧ street a = streetOf best) ∧
  (truthy (streetOf best) = false →
     fst (reverseGeocode env log lat lon false) = Ok None).
Proof.
  intros Htoken Hfetch Hin Hprecise best.
  destruct (selectFeature_best first rest) as [_ Hall].
  rewrite Forall_forall in Hall. specialize (Hall f Hin). fold best in Hall.
  unfold precision in Hall.
  assert (Hbest : featureType best = Some "poi" ∨ featureType best = Some "address").
  { apply precisionOf_precise. destruct Hprecise as [E|E]; rewrite E in Hall;
      simpl in Hall; lia. }
  split.
  { intros E. apply precisionOf_poi. rewrite E in Hall. exact Hall. }
  split; [exact Hbest|].
  unfold reverseGeocode, send. rewrite Htoken, Hfetch. cbn [negb fst].
  unfold addressOfFeatures. fold best.
  assert (Hgate : negb false
                  && negb (isType (featureType best) "poi"
                           || isType (featureType best) "address")
                  && (isType (featureType best) "place"
                      || isType (featureType best) "region") = false).
  { destruct Hbest as [-> | ->]; reflexivity. }
  rewrite Hgate. split.
  - intros Hstreet. rewrite Hstreet. cbn [negb andb]. eexists. split; [reflexivity|].
    cbn [street]. apply keepTruthy_truthy, Hstreet.
  - intros Hstreet. rewrite Hstreet. reflexivity.
Qed.

(** **** The properties on sample lookups *)

Lemma reverse_address_has_street_witness :
  truthy (Some "123 N Central Ave Cartel Coffee") = true ∧
  ∃ first rest,
    fetch Cases.mapped 0 (ReverseLookup (-112.0625)%float 33.4375%float)
    = Http true (Some (first :: rest)) ∧
    ¬ cityLevel (featureType (selectFeature first rest)).
Proof.
  apply (reverse_address_has_street Cases.mapped []
           [ReverseLookup (-112.0625)%float 33.4375%float]
           33.4375%float (-112.0625)%float
           (mkAddress (Some "123 N Central Ave Cartel Coffee") (Some "Phoenix")
              (Some "AZ") (Some "85004") (Some "US"))).
  vm_compute. reflexivity.
Defined.

Lemma reverse_failure_is_null_witness :
  (∃ e, reverseGeocode Cases.unconfigured [] 33.5%float (-112.0)%float false
        = (Throw e, [])) ∧
  reverseGeocode Cases.degraded [] 33.5%float (-112.0)%float false
  = (Ok None, [ReverseLookup (-112.0)%float 33.5%float]).
Proof.
  split.
  - apply (reverse_failure_is_null Cases.unconfigured [] 33.5%float (-112.0)%float false).
    reflexivity.
  - destruct (reverse_failure_is_null Cases.degraded [] 33.5%float (-112.0)%float false)
      as [_ Hnull].
    destruct (Hnull eq_refl) as [_ Hnone].
    apply (Hnone None). right. left. reflexivity.
Defined.

Lemma forward_requests_and_cache_witness :
  sent (snd (geocodeAddress Scenario.offline Scenario.afterFirst Scenario.centralAve))
  = sent Scenario.afterFirst ∧
  geocodeCache (snd (geocodeAddress Scenario.offline Scenario.afterFirst Scenario.centralAve))
  = geocodeCache Scenario.afterFirst.
Proof.
  destruct (forward_requests_and_cache Scenario.offline Scenario.afterFirst
              Scenario.centralAve) as (_ & Hhit & _).
  apply (Hhit (mkCoord 33.4375%float (-112.0625)%float)).
  vm_compute. reflexivity.
Defined.

Lemma forward_without_bias_witness :
  geocodeWithMapbox Cases.degraded [] Scenario.centralAve
  = (Ok (mkCoord 33.4375%float (-112.0625)%float),
     [PlaceLookup "Phoenix, AZ";
      ForwardLookup "123 N Central Ave, Phoenix, AZ, 85004, US" "US" None]).
Proof.
  apply (forward_without_bias Cases.degraded [] Scenario.centralAve Rejected
           (Scenario.featureAt (-112.0625)%float 33.4375%float "address" "N Central Ave")
           [] (-112.0625)%float 33.4375%float);
    try reflexivity.
  left. reflexivity.
Defined.

Lemma reverse_prefers_precise_witness :
  featureType (selectFeature
     (Scenario.featureAt (-112.0)%float 33.5%float "place" "Phoenix")
     [Scenario.featureAt (-112.0625)%float 33.4375%float "address" "N Central Ave";
      Cases.cafe]) = Some "poi".
Proof.
  apply (reverse_prefers_precise Cases.mapped [] 33.4375%float (-112.0625)%float
           (Scenario.featureAt (-112.0)%float 33.5%float "place" "Phoenix")
           [Scenario.featureAt (-112.0625)%float 33.4375%float "address" "N Central Ave";
            Cases.cafe] Cases.cafe).
  - reflexivity.
  - reflexivity.
  - right. right. left.
  - left. reflexivity.
  - reflexivity.
Defined.

End GeocodeProps.
(** *** Further properties of the salary parsers *)

Module SalaryProps.
Import JS Salary Spec SalaryFacts.

Lemma leadingDigits_nonneg (s : string) :
  ∀ acc z, (∀ a, acc = Some a → 0 <= a) →
    leadingDigits s acc = Some z → 0 <= z.
Proof.
  induction s as [|c s IH]; intros acc z Hacc; simpl.
  - apply Hacc.
  - destruct (isDigit c); [|apply Hacc].
    apply IH. intros a [= <-]. unfold digitVal.
    destruct acc as [a0|]; simpl; [specialize (Hacc a0 eq_refl)|]; lia.
Qed.

Lemma parseInt_nonneg (s : string) (z : Z) : parseInt s = Int z → 0 <= z.
Proof.
  unfold parseInt. destruct (leadingDigits s None) as [v|] eqn:Hv; [|discriminate].
  intros [= <-]. apply (leadingDigits_nonneg s None v); [discriminate|exact Hv].
Qed.

(** A list of numbers is a list of integers, or holds a NaN. *)
Lemma ints_or_NaN (l : list number) :
  (∃ zs, l = map Int zs) ∨ In NaN l.
Proof.
  induction l as [|[|z] l IH]; [left; exists []; reflexivity|right; left; reflexivity|].
  destruct IH as [[zs ->]|Hnan]; [left; exists (z :: zs); reflexivity|right; right; exact Hnan].
Qed.

Lemma fold_min2_NaN (l : list number) : fold_left min2 l NaN = NaN.
Proof. induction l as [|x l IH]; simpl; [reflexivity|exact IH]. Qed.

Lemma fold_max2_NaN (l : list number) : fold_left max2 l NaN = NaN.
Proof. induction l as [|x l IH]; simpl; [reflexivity|exact IH]. Qed.

Lemma Math_min_NaN (n : number) (l : list number) :
  In NaN (n :: l) → Math_min n l = NaN.
Proof.
  unfold Math_min. revert n. induction l as [|x l IH]; intros n Hin; simpl.
  - destruct Hin as [-> | []]. reflexivity.
  - destruct Hin as [-> | [-> | Hin]].
    + apply fold_min2_NaN.
    + destruct n; apply fold_min2_NaN.
    + destruct n, x; try apply fold_min2_NaN. apply IH. right. exact Hin.
Qed.

Lemma Math_max_NaN (n : number) (l : list number) :
  In NaN (n :: l) → Math_max n l = NaN.
Proof.
  unfold Math_max. revert n. induction l as [|x l IH]; intros n Hin; simpl.
  - destruct Hin as [-> | []]. reflexivity.
  - destruct Hin as [-> | [-> | Hin]].
    + apply fold_max2_NaN.
    + destruct n; apply fold_max2_NaN.
    + destruct n, x; try apply fold_max2_NaN. apply IH. right. exact Hin.
Qed.

Lemma arizonaNumbers_nonneg (text : string) (zs : list Z) :
  arizonaNumbers text = map Int zs → Forall (fun z => 0 <= z) zs.
Proof.
  unfold arizonaNumbers. intros Hzs. apply Forall_forall. intros z Hz.
  assert (Hin : In (Int z) (map Int zs)) by (apply in_map, list_elem_of_In, Hz).
  rewrite <- Hzs in Hin. apply in_map_iff in Hin as (run & Hrun & _).
  apply (parseInt_nonneg _ _ Hrun).
Qed.

Lemma fold_bounds (rest : list Z) (n : Z) :
  Forall (fun z => 0 <= z) (n :: rest) →
  0 <= fold_left Z.min rest n <= fold_left Z.max rest n.
Proof.
  intros Hpos.
  destruct (fold_min_is_min rest n) as [Hmin Hle].
  assert (Hmm := is_min_le_max _ _ _ (fold_min_is_min rest n) (fold_max_is_max rest n)).
  rewrite Forall_forall in Hpos. specialize (Hpos _ Hmin). lia.
Qed.

(** X17. The Arizona parser never yields a reversed or negative range:
    whenever it produces integers for both pay fields, the minimum is
    at least 0 and at most the maximum, whatever the text. *)
Theorem arizona_range_is_ordered (text : option string) (a b : Z) :
  payMin (parseSalaryArizona text) = Some (Int a) →
  payMax (parseSalaryArizona text) = Some (Int b) →
  0 <= a <= b.
Proof.
  destruct text as [text|]; [|discriminate].
  destruct (ints_or_NaN (arizonaNumbers text)) as [[zs Hzs]|Hnan].
  - assert (Hpos := arizonaNumbers_nonneg text zs Hzs).
    destruct zs as [|n rest].
    { destruct (parseSalary_no_token text Hzs) as [-> _]. discriminate. }
    rewrite (parseSalaryArizona_ints text n rest Hzs). cbv zeta.
    assert (Hb := fold_bounds rest n Hpos).
    destruct (negb (fold_left Z.max rest n =? 0) && (fold_left Z.max rest n <? 100));
      cbn [payMin payMax].
    + destruct (negb (fold_left Z.min rest n =? 0)); [|discriminate].
      intros [= <-] [= <-]. nia.
    + intros [= <-] [= <-]. exact Hb.
  - unfold parseSalaryArizona. destruct text as [|c text]; [discriminate|].
    destruct (arizonaNumbers (String c text)) as [|n rest]; [destruct Hnan|].
    destruct rest as [|m rest].
    + destruct Hnan as [-> | []]. discriminate.
    + rewrite (Math_max_NaN n (m :: rest) Hnan), (Math_min_NaN n (m :: rest) Hnan).
      discriminate.
Qed.


Lemma arizona_range_is_ordered_witness : 0 <= 104000 <= 124800.
Proof.
  apply (arizona_range_is_ordered (Some "$50k - $60k DOE")); reflexivity.
Defined.

End SalaryProps.
(** ** The detail route *)

Module DetailProps.
Import JS Jobs Redis Search Spec Props Detail Lifecycle JobsFacts SearchFacts.

Lemma approvedWithId_spec (id : string) (j : Job) :
  approvedWithId id j = true ↔ Row.id j = id ∧ Row.status j = APPROVED.
Proof.
  unfold approvedWithId, hasId.
  rewrite andb_true_iff, String.eqb_eq, bool_decide_eq_true. tauto.
Qed.

Lemma approvedWithId_select (id : string) (db : Table) :
  List.filter (approvedWithId id) db
  = List.filter (fun j => bool_decide (Row.status j = APPROVED)) (selectById id db).
Proof.
  unfold selectById, approvedWithId.
  induction db as [|x db IH]; simpl; [reflexivity|].
  destruct (hasId id x); simpl; rewrite IH; reflexivity.
Qed.

Lemma detail_found (id : string) (db : Table) (d : JobDetail) :
  jobDetailHandler id db = Found d →
  ∃ j, j ∈ db ∧ Row.id j = id ∧ Row.status j = APPROVED ∧ d = jobToDetail j.
Proof.
  unfold jobDetailHandler.
  destruct (List.filter (approvedWithId id) db) as [|j rest] eqn:Hf; [discriminate|].
  intros [= <-]. exists j.
  assert (Hin : In j (List.filter (approvedWithId id) db)) by (rewrite Hf; left; reflexivity).
  apply filter_In in Hin as [Hin [Hid Hst]%approvedWithId_spec].
  split; [apply list_elem_of_In, Hin|]. auto.
Qed.

Lemma detail_not_found (id : string) (db : Table) :
  (∀ j, j ∈ db → Row.id j = id → Row.status j ≠ APPROVED) →
  jobDetailHandler id db = NotFound.
Proof.
  intros Hnone. unfold jobDetailHandler.
  destruct (List.filter (approvedWithId id) db) as [|j rest] eqn:Hf; [reflexivity|].
  assert (Hin : In j (List.filter (approvedWithId id) db)) by (rewrite Hf; left; reflexivity).
  apply filter_In in Hin as [Hin [Hid Hst]%approvedWithId_spec].
  exfalso. apply (Hnone j); [apply list_elem_of_In, Hin|exact Hid|exact Hst].
Qed.

Lemma detail_of_row (db : Table) (j : Job) :
  uniqueIds db → j ∈ db →
  jobDetailHandler (Row.id j) db
  = if bool_decide (Row.status j = APPROVED) then Found (jobToDetail j) else NotFound.
Proof.
  intros Huniq Hin. unfold jobDetailHandler.
  rewrite approvedWithId_select, (selectById_unique db j Huniq Hin). simpl.
  destruct (bool_decide (Row.status j = APPROVED)); reflexivity.
Qed.

(** X19. The detail route serves approved rows only: under the primary
    key, the row with the requested id is returned when it is approved,
    and a row that is pending or rejected is not found, like an id that
    is not stored; whatever the route returns is an approved stored row
    with that id. *)
Theorem detail_serves_approved_rows (id : string) (db : Table) :
  uniqueIds db →
  (∀ j, j ∈ db → Row.id j = id →
     jobDetailHandler id db
     = if bool_decide (Row.status j = APPROVED) then Found (jobToDetail j) else NotFound) ∧
  (id ∉ map Row.id db → jobDetailHandler id db = NotFound) ∧
  (∀ d, jobDetailHandler id db = Found d →
     ∃ j, j ∈ db ∧ Row.id j = id ∧ Row.status j = APPROVED ∧ d = jobToDetail j).
Proof.
  intros Huniq. split; [|split].
  - intros j Hin <-. apply detail_of_row; assumption.
  - intros Hfresh. apply detail_not_found. intros j Hin Hid _.
    apply Hfresh. rewrite <- Hid. apply list_elem_of_fmap_2, Hin.
  - apply detail_found.
Qed.

Section WithPlatform.
Context `{Platform}.


End WithPlatform.

(** **** The properties on the sample board *)

Lemma detail_serves_approved_rows_witness :
  jobDetailHandler "c6" Scenario.board = Found (jobToDetail Scenario.teacher) ∧
  jobDetailHandler "c1" Scenario.board = NotFound.
Proof.
  assert (Huniq : uniqueIds Scenario.board).
  { apply (bool_decide_unpack _). vm_compute. exact I. }
  destruct (detail_serves_approved_rows "c6" Scenario.board Huniq) as (Hteacher & _ & _).
  destruct (detail_serves_approved_rows "c1" Scenario.board Huniq) as (Hbarista & _ & _).
  split.
  - apply (Hteacher Scenario.teacher); [|reflexivity]. do 3 right. left.
  - apply (Hbarista Scenario.rejectedBarista); [|reflexivity]. right. left.
Defined.


End DetailProps.

(** ** The suggestion route *)

Module SuggestProps.
Import JS Jobs Redis Search Spec Props Detail Lifecycle JobsFacts SearchFacts.

Lemma distinct_elem (x : string) (l : list string) : x ∈ distinct l ↔ x ∈ l.
Proof.
  induction l as [|y l IH]; simpl; [reflexivity|].
  rewrite !elem_of_cons, list_elem_of_In, filter_In, <- list_elem_of_In, IH.
  rewrite negb_true_iff, String.eqb_neq.
  destruct (decide (x = y)); tauto.
Qed.

Lemma distinct_NoDup (l : list string) : NoDup (distinct l).
Proof.
  induction l as [|y l IH]; simpl; [constructor|].
  constructor.
  - rewrite list_elem_of_In, filter_In, negb_true_iff, String.eqb_neq. tauto.
  - apply (sublist_NoDup _ (distinct l)); [exact IH|].
    clear. induction (distinct l) as [|z k IHk]; simpl; [constructor|].
    destruct (negb (z =? y)%string); constructor; exact IHk.
Qed.

Lemma insertText_perm (before : string -> string -> bool) (x : string) (l : list string) :
  insertText before x l ≡ₚ x :: l.
Proof.
  induction l as [|y l IH]; simpl; [reflexivity|].
  destruct (before x y); [reflexivity|].
  rewrite IH. apply Permutation_swap.
Qed.

Lemma orderText_perm (before : string -> string -> bool) (l : list string) :
  orderText before l ≡ₚ l.
Proof.
  unfold orderText. induction l as [|x l IH]; simpl; [reflexivity|].
  rewrite insertText_perm, IH. reflexivity.
Qed.

Section WithPlatform.
Context `{Platform}.

Lemma suggestionQuery_take (before : string -> string -> bool) (q : string)
    (type : option string) (db : Table) :
  ∃ all, suggestionQuery before q type db = take 10 all ∧ NoDup all ∧
         ∀ s, s ∈ all ↔ ∃ j, j ∈ db ∧ suggestible q type j ∧ suggestionColumn type j = s.
Proof.
  unfold suggestionQuery. eexists. split; [reflexivity|]. split.
  - rewrite orderText_perm. apply distinct_NoDup.
  - intros s. rewrite orderText_perm, distinct_elem, list_elem_of_fmap.
    unfold suggestible. split.
    + intros (j & -> & Hj). apply list_elem_of_In in Hj.
      apply filter_In in Hj as [Hin Hc].
      apply andb_true_iff in Hc as [Hlike Hst%bool_decide_eq_true].
      exists j. rewrite list_elem_of_In. auto.
    + intros (j & Hin & [Hst Hlike] & <-). exists j. split; [reflexivity|].
      apply list_elem_of_In. apply filter_In. split; [apply list_elem_of_In, Hin|].
      rewrite Hlike. simpl. apply bool_decide_eq_true_2. exact Hst.
Qed.

(** X21. What the suggestion query offers: at most ten texts, no text
    twice, each the title (or the company, when companies are asked
    for) of an approved row that holds the term; and when fewer than
    ten are offered, none is left out. *)
Theorem suggestions_from_approved_rows (before : string -> string -> bool) (q : string)
    (type : option string) (db : Table) :
  let offered := suggestionQuery before q type db in
  (List.length offered <= 10)%nat ∧
  NoDup offered ∧
  (∀ s, s ∈ offered →
     ∃ j, j ∈ db ∧ suggestible q type j ∧ suggestionColumn type j = s) ∧
  ((List.length offered < 10)%nat →
     ∀ j, j ∈ db → suggestible q type j → suggestionColumn type j ∈ offered).
Proof.
  cbv zeta. destruct (suggestionQuery_take before q type db) as (all & -> & Hnd & Hall).
  split; [rewrite length_take; lia|]. split; [|split].
  - apply (sublist_NoDup _ all); [exact Hnd|apply sublist_take].
  - intros s Hs. apply Hall. apply (subseteq_take 10). exact Hs.
  - rewrite length_take. intros Hlt j Hin Hj.
    rewrite take_ge by lia. apply Hall. eauto.
Qed.

(** X22. Suggestions are cached for an hour: once computed with Redis
    reachable, the same term gets the same list as a cache hit until
    3600 seconds have passed, whatever the table holds by then, and a
    request without a type shares the entry of a request for titles. *)
Theorem suggestions_cached_for_an_hour (before : string -> string -> bool) (now : Z)
    (q : string) (type : option string) (db : Table) (server : Server (list string))
    (offered : list string) (redis' : Client (list string)) :
  reachable server = true →
  suggestionsHandler before now (Some q) type db (Some server) = (Computed offered, redis') →
  (2 <= String.length q)%nat ∧
  offered = suggestionQuery before q type db ∧
  ∀ later type' db',
    orElse type' "title" = orElse type "title" →
    later < now + 3600 * 1000 →
    suggestionsHandler before later (Some q) type' db' redis' = (Cached offered, redis').
Proof.
  intros Hup. unfold suggestionsHandler.
  destruct q as [|c q]; [simpl; discriminate|].
  cbn [truthy negb orb default from_option id].
  destruct (String.length (String c q) <? 2)%nat eqn:Hlen; [discriminate|].
  apply Nat.ltb_ge in Hlen.
  destruct (getCache now (Some server) (suggestionKey (String c q) type)) as [v|] eqn:Hget;
    [discriminate|].
  intros [= <- <-]. split; [exact Hlen|]. split; [reflexivity|].
  intros later type' db' Hty Hlater.
  assert (Hkey : suggestionKey (String c q) type' = suggestionKey (String c q) type).
  { unfold suggestionKey. rewrite Hty. reflexivity. }
  rewrite Hkey. unfold setCache, getCache. rewrite Hup. cbn [reachable keys].
  rewrite lookup_insert_eq. cbn [expiresAt value].
  destruct (later <? now + 3600 * 1000) eqn:Hlt; [reflexivity|].
  apply Z.ltb_ge in Hlt. lia.
Qed.

(** A term of fewer than two characters gets no suggestion and touches
    neither the table nor the cache. *)
Lemma suggestions_too_short (before : string -> string -> bool) (now : Z)
    (q type : option string) (db : Table) (redis : Client (list string)) :
  (String.length (default EmptyString q) < 2)%nat →
  suggestionsHandler before now q type db redis = (TooShort, redis).
Proof.
  intros Hlen. unfold suggestionsHandler.
  apply Nat.ltb_lt in Hlen. rewrite Hlen, orb_true_r. reflexivity.
Qed.

End WithPlatform.

(** **** The properties on the sample board *)

Lemma suggestions_cached_for_an_hour_witness :
  suggestionsHandler (H := Scenario.postgres) Desk.byteOrder (1700600000000 + 3599999)
    (Some "er") (Some "title") []
    (snd (suggestionsHandler (H := Scenario.postgres) Desk.byteOrder 1700600000000
            (Some "er") None Scenario.board (Some (mkServer ∅ true))))
  = (Cached ["Clerk"; "Teacher"],
     snd (suggestionsHandler (H := Scenario.postgres) Desk.byteOrder 1700600000000
            (Some "er") None Scenario.board (Some (mkServer ∅ true)))).
Proof.
  destruct (suggestions_cached_for_an_hour (H := Scenario.postgres) Desk.byteOrder
              1700600000000 "er" None Scenario.board (mkServer ∅ true)
              ["Clerk"; "Teacher"]
              (snd (suggestionsHandler (H := Scenario.postgres) Desk.byteOrder 1700600000000
                      (Some "er") None Scenario.board (Some (mkServer ∅ true))))
              eq_refl) as (_ & _ & Hhit).
  - vm_compute. reflexivity.
  - apply Hhit; [reflexivity|lia].
Defined.

End SuggestProps.

(** ** The rate limiter of the employer form *)

Module LimiterProps.
Import Employer Lifecycle.

Lemma checkRateLimit_new (now : Z) (ip : string) (store : gmap string Limit) :
  store !! ip = None ∨ (∃ r, store !! ip = Some r ∧ resetAt r < now) →
  checkRateLimit now ip store
  = (mkCheck true (RATE_LIMIT_MAX - 1),
     <[ip := mkLimit 1 (now + RATE_LIMIT_WINDOW)]> store).
Proof.
  unfold checkRateLimit. intros [-> | (r & -> & Hr)]; [reflexivity|].
  apply Z.ltb_lt in Hr. rewrite Hr. reflexivity.
Qed.

Lemma checkRateLimit_live (now : Z) (ip : string) (store : gmap string Limit) (r : Limit) :
  store !! ip = Some r → now <= resetAt r →
  checkRateLimit now ip store
  = if RATE_LIMIT_MAX <=? count r
    then (mkCheck false 0, store)
    else (mkCheck true (RATE_LIMIT_MAX - (count r + 1)),
          <[ip := mkLimit (count r + 1) (resetAt r)]> store).
Proof.
  unfold checkRateLimit. intros -> Hr.
  apply Z.ltb_ge in Hr. rewrite Hr. reflexivity.
Qed.

(** Within a window the answers follow the counter. *)
Lemma checks_counted (times : list Z) (ip : string) (store : gmap string Limit)
    (n reset : Z) :
  store !! ip = Some (mkLimit n reset) →
  Forall (fun t => t <= reset) times →
  ∀ i c, fst (checks times ip store) !! i = Some c →
    allowed c = (n + Z.of_nat i <? RATE_LIMIT_MAX) ∧
    remaining c = Z.max 0 (RATE_LIMIT_MAX - 1 - (n + Z.of_nat i)).
Proof.
  revert store n. induction times as [|t times IH]; intros store n Hrec Hall i c.
  { simpl. rewrite lookup_nil. discriminate. }
  apply Forall_cons in Hall as [Ht Hall].
  simpl. rewrite (checkRateLimit_live t ip store _ Hrec Ht). cbn [count resetAt].
  unfold RATE_LIMIT_MAX in *.
  destruct (5 <=? n) eqn:Hn.
  - apply Z.leb_le in Hn.
    destruct (checks times ip store) as [cs store2] eqn:Hrest.
    destruct i as [|i]; simpl.
    + intros [= <-]. simpl. split; [symmetry; apply Z.ltb_ge|]; lia.
    + intros Hc. specialize (IH store n Hrec Hall i c). rewrite Hrest in IH.
      destruct (IH Hc) as [Ha Hr]. rewrite Ha, Hr.
      split; [|lia]. transitivity false; [apply Z.ltb_ge|symmetry; apply Z.ltb_ge]; lia.
  - apply Z.leb_gt in Hn.
    destruct (checks times ip (<[ip:=mkLimit (n + 1) reset]> store)) as [cs store2] eqn:Hrest.
    destruct i as [|i]; simpl.
    + intros [= <-]. simpl. split; [symmetry; apply Z.ltb_lt|]; lia.
    + intros Hc.
      specialize (IH (<[ip:=mkLimit (n + 1) reset]> store) (n + 1)
                    (lookup_insert_eq _ _ _) Hall i c).
      rewrite Hrest in IH. destruct (IH Hc) as [Ha Hr]. rewrite Ha, Hr.
      split; [f_equal|f_equal]; lia.
Qed.

(** X23. Five submissions per window: when an address has no record,
    or a record whose window is over, its next check opens a window of
    one hour, and of the checks made until that window ends exactly the
    first five are allowed, with 4, 3, 2, 1 and 0 submissions remaining;
    every later one is refused with 0 remaining. *)
Theorem five_submissions_per_window (t0 : Z) (times : list Z) (ip : string)
    (store : gmap string Limit) :
  store !! ip = None ∨ (∃ r, store !! ip = Some r ∧ resetAt r < t0) →
  Forall (fun t => t <= t0 + RATE_LIMIT_WINDOW) times →
  ∀ i c, fst (checks (t0 :: times) ip store) !! i = Some c →
    allowed c = bool_decide (i < 5)%nat ∧
    remaining c = Z.max 0 (4 - Z.of_nat i).
Proof.
  intros Hnew Hall i c. simpl. rewrite (checkRateLimit_new t0 ip store Hnew).
  destruct (checks times ip _) as [cs store2] eqn:Hrest.
  destruct i as [|i]; simpl.
  - intros [= <-]. simpl. split; [reflexivity|]. unfold RATE_LIMIT_MAX. lia.
  - intros Hc.
    pose proof (checks_counted times ip
                  (<[ip := mkLimit 1 (t0 + RATE_LIMIT_WINDOW)]> store)
                  1 (t0 + RATE_LIMIT_WINDOW)
                  (lookup_insert_eq _ _ _) Hall i c) as Hcount.
    rewrite Hrest in Hcount. destruct (Hcount Hc) as [Ha Hr].
    rewrite Ha, Hr. unfold RATE_LIMIT_MAX. split; [|lia].
    destruct (bool_decide_reflect (S i < 5)%nat);
      [apply Z.ltb_lt|apply Z.ltb_ge]; lia.
Qed.

(** X24. The limiter is per address: a check for one address leaves
    the record of every other address as it is, so what another address
    is answered, at any time, does not depend on it. *)
Theorem limiter_is_per_address (now : Z) (ip other : string) (store : gmap string Limit) :
  other ≠ ip →
  snd (checkRateLimit now ip store) !! other = store !! other ∧
  ∀ t, fst (checkRateLimit t other (snd (checkRateLimit now ip store)))
       = fst (checkRateLimit t other store).
Proof.
  intros Hne.
  assert (Hframe : snd (checkRateLimit now ip store) !! other = store !! other).
  { unfold checkRateLimit. destruct (store !! ip) as [r|]; simpl.
    - destruct (resetAt r <? now); simpl; [apply lookup_insert_ne; congruence|].
      destruct (RATE_LIMIT_MAX <=? count r); simpl;
        [reflexivity|apply lookup_insert_ne; congruence].
    - apply lookup_insert_ne. congruence. }
  split; [exact Hframe|]. intros t.
  unfold checkRateLimit at 1 3. rewrite Hframe.
  destruct (store !! other) as [r|]; [|reflexivity].
  destruct (resetAt r <? t); [reflexivity|].
  destruct (RATE_LIMIT_MAX <=? count r); reflexivity.
Qed.

Lemma sweep_lookup (now : Z) (ip : string) (store : gmap string Limit) :
  sweep now store !! ip
  = match store !! ip with
    | Some r => if resetAt r <? now then None else Some r
    | None => None
    end.
Proof.
  unfold sweep. rewrite map_lookup_filter.
  destruct (store !! ip) as [r|]; simpl; [|reflexivity].
  destruct (resetAt r <? now) eqn:Hr.
  - apply Z.ltb_lt in Hr. rewrite option_guard_False; [reflexivity|]. simpl. lia.
  - apply Z.ltb_ge in Hr. rewrite option_guard_True; [reflexivity|]. simpl. lia.
Qed.

(** X25. The periodic clean-up cannot be observed: it keeps every
    record whose window is still open, and a check made at or after the
    time of a clean-up is answered as if the clean-up had not run, and
    leaves the same record for the address. *)
Theorem sweep_is_invisible (now later : Z) (ip : string) (store : gmap string Limit) :
  now <= later →
  (∀ r, store !! ip = Some r → now <= resetAt r → sweep now store !! ip = Some r) ∧
  fst (checkRateLimit later ip (sweep now store)) = fst (checkRateLimit later ip store) ∧
  snd (checkRateLimit later ip (sweep now store)) !! ip
  = snd (checkRateLimit later ip store) !! ip.
Proof.
  intros Hle. split.
  { intros r Hr Hlive. rewrite sweep_lookup, Hr.
    apply Z.ltb_ge in Hlive. rewrite Hlive. reflexivity. }
  unfold checkRateLimit. rewrite sweep_lookup.
  destruct (store !! ip) as [r|] eqn:Hr; simpl.
  - destruct (resetAt r <? now) eqn:Hold.
    + apply Z.ltb_lt in Hold.
      assert (Hexp : (resetAt r <? later) = true) by (apply Z.ltb_lt; lia).
      rewrite Hexp. simpl. rewrite !lookup_insert_eq. split; reflexivity.
    + destruct (resetAt r <? later); simpl.
      { rewrite !lookup_insert_eq. split; reflexivity. }
      destruct (RATE_LIMIT_MAX <=? count r); simpl.
      { rewrite sweep_lookup, Hr, Hold. split; reflexivity. }
      rewrite !lookup_insert_eq. split; reflexivity.
  - rewrite !lookup_insert_eq. split; reflexivity.
Qed.

(** **** The properties at the desk *)

Lemma five_submissions_per_window_witness :
  ∃ c, fst (checks [1700600000000; 1700600000500; 1700600100000; 1700601000000;
                    1700602000000; 1700603000000; 1700603600000]
              "198.51.100.2" Desk.mixed) !! 5%nat = Some c
       ∧ allowed c = bool_decide (5 < 5)%nat ∧ remaining c = Z.max 0 (4 - Z.of_nat 5).
Proof.
  eexists. split; [vm_compute; reflexivity|].
  apply (five_submissions_per_window 1700600000000
           [1700600000500; 1700600100000; 1700601000000;
            1700602000000; 1700603000000; 1700603600000]
           "198.51.100.2" Desk.mixed).
  - right. exists (mkLimit 3 1700500000000). split; [vm_compute; reflexivity|].
    simpl. lia.
  - repeat constructor; vm_compute; discriminate.
  - vm_compute. reflexivity.
Defined.

Lemma limiter_is_per_address_witness :
  fst (checkRateLimit 1700600000000 "203.0.113.7"
         (snd (checkRateLimit 1700600000000 "198.51.100.2" Desk.mixed)))
  = fst (checkRateLimit 1700600000000 "203.0.113.7" Desk.mixed).
Proof.
  apply (limiter_is_per_address 1700600000000 "198.51.100.2" "203.0.113.7" Desk.mixed).
  discriminate.
Defined.

Lemma sweep_is_invisible_witness :
  fst (checkRateLimit 1700600300000 "198.51.100.2" (sweep 1700600000000 Desk.mixed))
  = fst (checkRateLimit 1700600300000 "198.51.100.2" Desk.mixed).
Proof.
  apply (sweep_is_invisible 1700600000000 1700600300000 "198.51.100.2" Desk.mixed).
  lia.
Defined.

End LimiterProps.

(** ** Submissions and moderation *)

Module ModerationProps.
Import JS Jobs Search Spec Props Detail Admin Lifecycle JobsFacts SearchFacts JobsProps
  DetailProps.

Section WithPlatform.
Context `{Platform}.

(** A row that is not approved is out of reach of the public routes. *)
Lemma unapproved_is_hidden (id : string) (db : Table) :
  (∀ j, j ∈ db → Row.id j = id → Row.status j ≠ APPROVED) →
  jobDetailHandler id db = NotFound ∧
  ∀ now params rows, searchQuery now params db = Ok rows → ¬ listed id rows.
Proof.
  intros Hnone. split; [apply detail_not_found, Hnone|].
  intros now params rows Hq (r & Hid & Hr)%list_elem_of_fmap.
  destruct (searchQuery_In now params db rows Hq r) as [Hdb [Hst _]];
    [apply list_elem_of_In, Hr|].
  apply (Hnone r); [apply list_elem_of_In, Hdb|congruence|exact Hst].
Qed.

End WithPlatform.

Lemma validateAdminKey_spec (KEY provided : option string) :
  validateAdminKey KEY provided = true ↔
  ∃ k, k ≠ EmptyString ∧ KEY = Some k ∧ provided = Some k.
Proof.
  unfold validateAdminKey. split.
  - destruct KEY as [[|c k]|]; simpl; try discriminate.
    destruct provided as [p|]; [|discriminate].
    intros ->%String.eqb_eq. exists (String c k). split; [discriminate|]. split; reflexivity.
  - intros (k & Hk & -> & ->). destruct k as [|c k]; [congruence|].
    cbn [truthy default from_option id]. apply String.eqb_refl.
Qed.


Section WithPlatform.
Context `{Platform}.


End WithPlatform.

(** X27. Moderation needs the key: a request is let in only when an
    admin key is configured, is not empty and equals the key the
    request provides; any other request is answered 401 and changes
    nothing, and with the key an id that is not stored is answered 404
    and changes nothing. *)
Theorem moderation_needs_key (stamps : bool) (KEY provided : option string) (now : Z)
    (decision : JobStatus) (id : string) (db : Table) :
  (validateAdminKey KEY provided = true ↔
     ∃ k, k ≠ EmptyString ∧ KEY = Some k ∧ provided = Some k) ∧
  (validateAdminKey KEY provided = false →
     moderate stamps KEY provided now decision id db = (Unauthorized, db)) ∧
  (validateAdminKey KEY provided = true → id ∉ map Row.id db →
     moderate stamps KEY provided now decision id db = (JobNotFound, db)).
Proof.
  split; [apply validateAdminKey_spec|]. split.
  - intros Hkey. unfold moderate. rewrite Hkey. reflexivity.
  - intros Hkey Hfresh. unfold moderate. rewrite Hkey. simpl.
    rewrite (selectById_fresh id db (existsb_hasId_false id db Hfresh)). reflexivity.
Qed.


End ModerationProps.

(** ** The employer form *)

Module EmployerProps.
Import JS Jobs Search Spec Props Detail Lifecycle JobsFacts SearchFacts JobsProps
  DetailProps Employer.

(** X28. The quota is checked before anything else: for an address
    that has used its five submissions of a window still open, a
    submission is answered 429 with the seconds left until the window
    ends, rounded up, whatever the body is, and nothing changes: no
    request is sent to the geocoder and no row is written. *)
Theorem over_quota_post_is_refused (env : Geocode.Env) (clock : Clock)
    (suffix jobId ip : string) (body : option Post) (w : World) (r : Limit) :
  limits w !! ip = Some r →
  checked clock <= resetAt r →
  RATE_LIMIT_MAX <= count r →
  postJob env clock suffix jobId ip body w
  = (TooManyRequests (ceilSeconds (resetAt r - answered clock)), w) ∧
  (resetAt r - answered clock <= 1000 * ceilSeconds (resetAt r - answered clock)
   < resetAt r - answered clock + 1000).
Proof.
  intros Hr Hlive Hfull. split.
  - unfold postJob, checkRateLimit. rewrite Hr.
    apply Z.ltb_ge in Hlive. apply Z.leb_le in Hfull. rewrite Hlive, Hfull.
    simpl. rewrite Hr. destruct w. reflexivity.
  - unfold ceilSeconds.
    pose proof (Z.div_mod (- (resetAt r - answered clock)) 1000 ltac:(lia)).
    pose proof (Z.mod_pos_bound (- (resetAt r - answered clock)) 1000 ltac:(lia)).
    lia.
Qed.

(** The table after the upsert of a submission that did not succeed. *)
Lemma upsertJob_failure (now : Z) (jobId : string) (data : JobInput) (db : Table) :
  match upsertJob now jobId data db with
  | (Ok (mkUpsert (Some _) _), _) => True
  | (Ok (mkUpsert None _), _) => False
  | (Throw _, db') => db' = db
  end.
Proof.
  destruct (upsertJob_cases now jobId data db)
    as [[e ->] | [(old & _ & Hst & ->) | (_ & _ & _ & ->)]]; [reflexivity| |exact I].
  destruct (stored_Some _ _ _ _ Hst) as [Hin _].
  destruct (selectById_present (updated now data old) db old
              (updated_id now data old) Hin) as [j ->].
  exact I.
Qed.

(** X29. Only a successful submission writes a row. Every request
    is counted against the quota of its address, also one that is then
    turned away; a request answered 429, 400 for its body or 400 for
    the missing captcha leaves the geocoder untouched; and whenever the
    answer is not the success answer the table is as it was. *)
Theorem only_success_writes (env : Geocode.Env) (clock : Clock)
    (suffix jobId ip : string) (body : option Post) (w w' : World) (reply : PostReply) :
  postJob env clock suffix jobId ip body w = (reply, w') →
  limits w' = snd (checkRateLimit (checked clock) ip (limits w)) ∧
  (turnedAway reply = true → geocoder w' = geocoder w) ∧
  (isSuccess reply = false → jobs w' = jobs w) ∧
  (isSuccess reply = true →
     allowed (fst (checkRateLimit (checked clock) ip (limits w))) = true ∧
     ∃ b, body = Some b ∧ truthy (hCaptcha b) = true).
Proof.
  unfold postJob.
  destruct (checkRateLimit (checked clock) ip (limits w)) as [rateLimit limits'].
  cbn [fst snd].
  destruct (allowed rateLimit); cbn [negb];
    [|intros [= <- <-]; repeat split; simpl; discriminate].
  destruct body as [b|]; [|intros [= <- <-]; repeat split; simpl; discriminate].
  destruct (truthy (hCaptcha b)) eqn:Hcaptcha; cbn [negb];
    [|intros [= <- <-]; repeat split; simpl; discriminate].
  destruct (Geocode.geocodeAddressSafe env (geocoder w) _) as [[at_|] geocoder'];
    [|intros [= <- <-]; repeat split; simpl; discriminate].
  pose proof (upsertJob_failure (storedNow clock) jobId
                (submission (postedNow clock) suffix b at_) (jobs w)) as Hup.
  destruct (upsertJob (storedNow clock) jobId _ (jobs w)) as [[[[j|] flag]|e] jobs'].
  - intros [= <- <-]. repeat split; simpl; try discriminate. eauto.
  - destruct Hup.
  - intros [= <- <-]. repeat split; simpl; try discriminate. intros _. exact Hup.
Qed.

Section WithPlatform.
Context `{Platform}.

(** X30. A submitted job awaits moderation: when the route answers
    with success, and the identifier drawn for the submission is not the
    sourceId of a stored manual job, the table has gained exactly one
    row, a MANUAL row with status PENDING at the coordinate the geocoder
    gave for the address of the body, whose id is the one the answer
    carries; the detail route does not find that id and no search lists
    it. *)
Theorem posted_job_awaits_moderation (env : Geocode.Env) (clock : Clock)
    (suffix jobId ip : string) (body : option Post) (w w' : World) (p : Posted) :
  stored MANUAL ("manual-" ++ suffix) (jobs w) = None →
  postJob env clock suffix jobId ip body w = (Success p, w') →
  ∃ b at_ row,
    body = Some b ∧
    fst (Geocode.geocodeAddressSafe env (geocoder w) (inl (addressOf b))) = Some at_ ∧
    jobs w' = (jobs w ++ [row])%list ∧
    Row.id row = jobId ∧ posted_id p = jobId ∧
    Row.source row = MANUAL ∧ Row.status row = PENDING ∧
    Row.latitude row = Geocode.lat at_ ∧ Row.longitude row = Geocode.lon at_ ∧
    jobDetailHandler jobId (jobs w') = NotFound ∧
    ∀ now params rows, searchQuery now params (jobs w') = Ok rows → ¬ listed jobId rows.
Proof.
  intros Hnew. unfold postJob.
  destruct (checkRateLimit (checked clock) ip (limits w)) as [rateLimit limits'].
  destruct (allowed rateLimit); cbn [negb]; [|discriminate].
  destruct body as [b|]; [|discriminate].
  destruct (truthy (hCaptcha b)); cbn [negb]; [|discriminate].
  fold (addressOf b).
  destruct (Geocode.geocodeAddressSafe env (geocoder w) (inl (addressOf b)))
    as [[at_|] geocoder'] eqn:Hgeo; [|discriminate].
  set (data := submission (postedNow clock) suffix b at_).
  destruct (upsertJob_cases (storedNow clock) jobId data (jobs w))
    as [[e ->] | [(old & _ & Hst & _) | (_ & _ & Hfresh & ->)]]; [discriminate| |].
  { change (Input.source data) with MANUAL in Hst.
    change (Input.sourceId data) with ("manual-" ++ suffix) in Hst. congruence. }
  intros [= <- <-].
  exists b, at_, (newRow (storedNow clock) jobId (defaultStatus data) data).
  cbn [jobs]. split; [reflexivity|]. split; [rewrite Hgeo; reflexivity|].
  repeat (split; [reflexivity|]).
  apply ModerationProps.unapproved_is_hidden.
  intros j [Hj | ->%list_elem_of_singleton]%elem_of_app Hid; [|discriminate].
  exfalso. apply (existsb_hasId_elem jobId (jobs w) Hfresh).
  rewrite <- Hid. apply list_elem_of_fmap_2, Hj.
Qed.

End WithPlatform.

(** **** The properties at the desk *)

Lemma over_quota_post_is_refused_witness :
  postJob Scenario.online Desk.morning "lq3x9k" "c7" "203.0.113.7" (Some Desk.coffeeCart)
    (mkWorld Desk.exhausted Scenario.fresh Scenario.board)
  = (TooManyRequests 900, mkWorld Desk.exhausted Scenario.fresh Scenario.board).
Proof.
  apply (over_quota_post_is_refused Scenario.online Desk.morning "lq3x9k" "c7"
           "203.0.113.7" (Some Desk.coffeeCart)
           (mkWorld Desk.exhausted Scenario.fresh Scenario.board)
           (mkLimit 5 1700600900000)).
  - vm_compute. reflexivity.
  - vm_compute. discriminate.
  - vm_compute. discriminate.
Defined.

Lemma only_success_writes_witness :
  jobs (snd (postJob Scenario.online Desk.morning "lq3x9k" "c7" "203.0.113.7"
               (Some Desk.noCaptcha) Desk.opening))
  = jobs Desk.opening.
Proof.
  destruct (only_success_writes Scenario.online Desk.morning "lq3x9k" "c7" "203.0.113.7"
              (Some Desk.noCaptcha) Desk.opening
              (snd (postJob Scenario.online Desk.morning "lq3x9k" "c7" "203.0.113.7"
                      (Some Desk.noCaptcha) Desk.opening))
              CaptchaRequired) as (_ & _ & Hjobs & _).
  - vm_compute. reflexivity.
  - apply Hjobs. reflexivity.
Defined.

Lemma posted_job_awaits_moderation_witness :
  jobDetailHandler "c7"
    (jobs (snd (postJob Scenario.online Desk.morning "lq3x9k" "c7" "203.0.113.7"
                  (Some Desk.coffeeCart) Desk.opening)))
  = NotFound.
Proof.
  destruct (posted_job_awaits_moderation (H := Scenario.postgres) Scenario.online
              Desk.morning "lq3x9k" "c7" "203.0.113.7" (Some Desk.coffeeCart) Desk.opening
              (snd (postJob Scenario.online Desk.morning "lq3x9k" "c7" "203.0.113.7"
                      (Some Desk.coffeeCart) Desk.opening))
              (mkPosted "c7" "Cart Barista" "Cartel Coffee" 33.4375%float (-112.0625)%float))
    as (b & at_ & row & _ & _ & _ & _ & _ & _ & _ & _ & _ & Hdetail & _).
  - vm_compute. reflexivity.
  - vm_compute. reflexivity.
  - exact Hdetail.
Defined.

End EmployerProps.

